(** * GreenGrocer ingestion pipeline (scripts/ingest_data.py)

    A shallow embedding of [ingest_files] and [main] together with the
    parts of Polars, pandas and the SQL sink that the two functions call,
    and the properties of the ingestion design checked against them.

    Layout: errors and the result monad; Polars series and data frames
    ([rename], [cast], diagonal [concat]); the sink; the loop of
    [ingest_files]; [main]; then the theorems. *)

From stdpp Require Import gmap strings list pretty.

Local Open Scope string_scope.
Local Open Scope list_scope.
Local Open Scope nat_scope.

#[local] Set Warnings "-clear-no-such-hyp".
#[local] Set Warnings "-notation-for-abbreviation".

(** ** Exceptions and fallible computations

    Every exception the loop body can see is an instance of Python's
    [Exception]; the handler of [ingest_files] does not distinguish them,
    so a small enumeration of the causes is enough. *)

Inductive exn : Type :=
  | ReadError        (* pl.read_csv: missing, unreadable or empty file *)
  | DuplicateError   (* Polars: two columns of a frame with one name *)
  | SchemaError      (* Polars: stacking columns of different dtypes *)
  | ShapeError       (* Polars: stacking frames of different columns *)
  | ValueError       (* pl.concat of an empty list *)
  | OperationalError (* SQLAlchemy: the write did not go through *).

Inductive result (A : Type) : Type :=
  | Ok (a : A)
  | Err (e : exn).
Arguments Ok {A} a.
Arguments Err {A} e.

Definition rbind {A B} (m : result A) (k : A → result B) : result B :=
  match m with
  | Ok a => k a
  | Err e => Err e
  end.

Notation "'try!' x ← m ; k" := (rbind m (λ x, k))
  (at level 100, x name, m at next level, k at level 200, right associativity).

Definition is_ok {A} (m : result A) : bool :=
  match m with Ok _ => true | Err _ => false end.

Definition ok_value {A} (m : result A) : option A :=
  match m with Ok a => Some a | Err _ => None end.

(** ** Column mapping (module constant [SALES_SCHEMA_MAP]) *)

Definition SALES_SCHEMA_MAP : gmap string string :=
  list_to_map
    [ ("qty", "quantity");
      ("quant", "quantity");
      ("count", "quantity");
      ("price", "unit_price");
      ("cost", "unit_price");
      ("tx_id", "transaction_id");
      ("txn_id", "transaction_id");
      ("prod_id", "product_id");
      ("item_id", "product_id");
      ("total", "total_amount");
      ("amount", "total_amount");
      ("date", "transaction_timestamp");
      ("timestamp", "transaction_timestamp") ].

(** Truth value of a dict in an [if]: a dict is true when it has an entry
    ([None], the default of [schema_map], is false). *)
Definition dict_truthy (d : gmap string string) : bool :=
  negb (Nat.eqb (size d) 0).

(** ** Polars series and data frames

    [pl.read_csv] infers one of four dtypes per column (dates are not
    parsed unless asked for, so they arrive as text).  Every entry of a
    series may be null.  The type [F] of 64-bit floats and their rendering
    as text are an interface: no property below depends on how a float is
    printed. *)

Class FloatFormat (F : Type) : Type := float_to_string : F → string.

Section Pipeline.

Context {F : Type} {float_format : FloatFormat F}.

Inductive DataType : Type := TInt64 | TFloat64 | TBoolean | TUtf8.

Inductive Series : Type :=
  | Int64 (xs : list (option Z))
  | Float64 (xs : list (option F))
  | Boolean (xs : list (option bool))
  | Utf8 (xs : list (option string)).

(** One entry of a series, with its dtype. *)
Inductive cell : Type :=
  | CInt (z : Z)
  | CFloat (f : F)
  | CBool (b : bool)
  | CStr (s : string).

Definition dtype (s : Series) : DataType :=
  match s with
  | Int64 _ => TInt64
  | Float64 _ => TFloat64
  | Boolean _ => TBoolean
  | Utf8 _ => TUtf8
  end.

Definition series_len (s : Series) : nat :=
  match s with
  | Int64 xs => length xs
  | Float64 xs => length xs
  | Boolean xs => length xs
  | Utf8 xs => length xs
  end.

(** The entries of a series; [None] is null. *)
Definition values (s : Series) : list (option cell) :=
  match s with
  | Int64 xs => fmap (M:=option) CInt <$> xs
  | Float64 xs => fmap (M:=option) CFloat <$> xs
  | Boolean xs => fmap (M:=option) CBool <$> xs
  | Utf8 xs => fmap (M:=option) CStr <$> xs
  end.

Definition full_null (dt : DataType) (n : nat) : Series :=
  match dt with
  | TInt64 => Int64 (replicate n None)
  | TFloat64 => Float64 (replicate n None)
  | TBoolean => Boolean (replicate n None)
  | TUtf8 => Utf8 (replicate n None)
  end.

(** A data frame: named columns, in order. *)
Definition DataFrame : Type := list (string * Series).

Definition columns (df : DataFrame) : list string := df.*1.

Definition height (df : DataFrame) : nat :=
  match df with
  | [] => 0
  | (_, s) :: _ => series_len s
  end.

Fixpoint get_column (df : DataFrame) (name : string) : option Series :=
  match df with
  | [] => None
  | (c, s) :: rest => if decide (c = name) then Some s else get_column rest name
  end.

(** What Polars guarantees of every frame it hands out: distinct column
    names and columns of one length. *)
Definition frame_ok (df : DataFrame) : Prop :=
  NoDup (columns df) ∧ Forall (λ cs, series_len cs.2 = height df) df.

(** Rows, as the sink sees them: one (column, entry) pair per column. *)
Definition row : Type := list (string * option cell).

Definition row_at (df : DataFrame) (i : nat) : row :=
  (λ cs, (cs.1, default None (values cs.2 !! i))) <$> df.

Definition rows_of (df : DataFrame) : list row :=
  row_at df <$> seq 0 (height df).

Fixpoint row_get (r : row) (name : string) : option (option cell) :=
  match r with
  | [] => None
  | (c, v) :: rest => if decide (c = name) then Some v else row_get rest name
  end.

(** *** [df.rename(mapping)]

    All columns are renamed at once; a column that is not a key keeps its
    name.  A frame cannot hold two columns of one name: Polars raises
    [DuplicateError] when the new names collide. *)

Definition rename_target (mapping : gmap string string) (c : string) : string :=
  default c (mapping !! c).

Definition rename (df : DataFrame) (mapping : gmap string string) : result DataFrame :=
  let renamed := (λ cs, (rename_target mapping cs.1, cs.2)) <$> df in
  if decide (NoDup (columns renamed)) then Ok renamed else Err DuplicateError.

(** *** [df.select(pl.all().cast(pl.Utf8))] *)

Definition bool_to_string (b : bool) : string :=
  if b then "true" else "false".

Definition cast_cell (v : cell) : string :=
  match v with
  | CInt z => pretty z
  | CFloat f => float_to_string f
  | CBool b => bool_to_string b
  | CStr s => s
  end.

Definition cast_utf8 (s : Series) : Series :=
  match s with
  | Int64 xs => Utf8 (fmap (M:=option) pretty <$> xs)
  | Float64 xs => Utf8 (fmap (M:=option) float_to_string <$> xs)
  | Boolean xs => Utf8 (fmap (M:=option) bool_to_string <$> xs)
  | Utf8 xs => Utf8 xs
  end.

Definition select_all_cast_utf8 (df : DataFrame) : DataFrame :=
  (λ cs, (cs.1, cast_utf8 cs.2)) <$> df.

(** *** The renaming step of the loop body (source lines 105-116) *)

Definition build_rename_dict (schema_map : gmap string string)
    (current_cols : list string) : gmap string string :=
  foldl (λ rename_dict col,
           match schema_map !! col with
           | Some target => <[col := target]> rename_dict
           | None => rename_dict
           end) ∅ current_cols.

Definition normalize_columns (schema_map : option (gmap string string))
    (df : DataFrame) : result DataFrame :=
  match schema_map with
  | Some m =>
      if dict_truthy m then
        let rename_dict := build_rename_dict m (columns df) in
        if dict_truthy rename_dict then rename df rename_dict else Ok df
      else Ok df
  | None => Ok df
  end.

(** *** [pl.concat(frames, how="diagonal")]

    Polars first collects the union of the frames' schemas, a column
    entering at its first occurrence; then every frame gets a column of
    nulls for each name it lacks and its columns put in the order of the
    union; then the frames are stacked. *)

Definition Schema : Type := list (string * DataType).

Definition schema_of (df : DataFrame) : Schema :=
  (λ cs, (cs.1, dtype cs.2)) <$> df.

Definition merge_schema (acc sch : Schema) : Schema :=
  foldl (λ acc cd, if decide (cd.1 ∈ acc.*1) then acc else acc ++ [cd]) acc sch.

Definition union_schema (dfs : list DataFrame) : Schema :=
  foldl (λ acc df, merge_schema acc (schema_of df)) [] dfs.

Definition align (sch : Schema) (df : DataFrame) : DataFrame :=
  (λ cd, (cd.1, default (full_null cd.2 (height df)) (get_column df cd.1))) <$> sch.

Definition append_series (a b : Series) : result Series :=
  match a, b with
  | Int64 xs, Int64 ys => Ok (Int64 (xs ++ ys))
  | Float64 xs, Float64 ys => Ok (Float64 (xs ++ ys))
  | Boolean xs, Boolean ys => Ok (Boolean (xs ++ ys))
  | Utf8 xs, Utf8 ys => Ok (Utf8 (xs ++ ys))
  | _, _ => Err SchemaError
  end.

Fixpoint vstack (a b : DataFrame) : result DataFrame :=
  match a, b with
  | [], [] => Ok []
  | (c, s) :: a', (c', s') :: b' =>
      if decide (c = c') then
        try! s'' ← append_series s s';
        try! rest ← vstack a' b';
        Ok ((c, s'') :: rest)
      else Err ShapeError
  | _, _ => Err ShapeError
  end.

Definition vstack_all (first : DataFrame) (rest : list DataFrame) : result DataFrame :=
  foldl (λ acc df, try! a ← acc; vstack a df) (Ok first) rest.

Definition concat_diagonal (dfs : list DataFrame) : result DataFrame :=
  match align (union_schema dfs) <$> dfs with
  | [] => Err ValueError
  | first :: rest => vstack_all first rest
  end.

(** ** The sink

    A table is the list of rows appended to it so far.  The sink also
    keeps the statements it was sent, in order, with the outcome of each
    write. *)

Inductive statement : Type :=
  | DropTableIfExists (table : string)
  | ToSql (table : string) (df : DataFrame) (committed : bool).

Record Sink : Type := MkSink {
  tables : gmap string (list row);
  statements : list statement
}.

(** What a [DROP TABLE IF EXISTS t] that goes through does to the sink;
    whether it goes through is the world's to say (see [execute_drop]). *)
Definition drop_table_if_exists (t : string) (s : Sink) : Sink :=
  {| tables := delete t (tables s);
     statements := statements s ++ [DropTableIfExists t] |}.

(** [df.to_pandas().to_sql(t, engine, if_exists='append', ...)]: the table
    is created when it does not exist and the rows are appended to it; a
    write that does not go through changes no table.  A table is kept as
    the rows sent to it, each as it was sent, under the columns of its own
    frame: how the table lays a row out under columns that only other
    batches brought is not modelled. *)
Definition append_rows (t : string) (df : DataFrame) (s : Sink) : Sink :=
  {| tables := <[t := default [] (tables s !! t) ++ rows_of df]> (tables s);
     statements := statements s ++ [ToSql t df true] |}.

Definition reject_rows (t : string) (df : DataFrame) (s : Sink) : Sink :=
  {| tables := tables s;
     statements := statements s ++ [ToSql t df false] |}.

(** ** The world outside the program

    The file system as [glob.glob] and [pl.read_csv] see it, the directory
    of the project, and for the n-th statement sent to the sink whether a
    write sent at that point goes through (the connection is up and the
    table takes the rows).  [reset_ok k] tells whether step [k] of the
    reset block of [main] goes through: 0 is [engine.connect()], 1 and 2
    are the two drops, 3 is [conn.commit()]. *)

Record World : Type := MkWorld {
  base_dir : string;
  glob : string → list string;
  read_csv : string → result DataFrame;
  to_sql_ok : nat → bool;
  reset_ok : nat → bool
}.

(** ** Console output of the two functions *)

Inductive output : Type :=
  | Starting
  | Cleared
  | Processing (source : string)
  | Found (total_files : nat) (table : string)
  | Processed (done total_files : nat)
  | ErrorProcessing (file_path : string) (e : exn)
  | Finished (table : string)
  | AllLoaded
  | Uncaught (e : exn) (* the traceback of an exception no handler caught *).

(** ** The loop of [ingest_files]

    The body of the [try] block runs in a state-and-exception monad: what
    the body did to the batch, the sink and the console before an
    exception was raised stays done. *)

Record LoopState : Type := MkLoop {
  current_batch : list DataFrame;
  sink : Sink;
  console : list output
}.

Definition M (A : Type) : Type := LoopState → LoopState * result A.

Definition ret {A} (a : A) : M A := λ st, (st, Ok a).

Definition bind {A B} (m : M A) (k : A → M B) : M B :=
  λ st, match m st with
        | (st', Ok a) => k a st'
        | (st', Err e) => (st', Err e)
        end.

Notation "'do!' x ← m ; k" := (bind m (λ x, k))
  (at level 100, x name, m at next level, k at level 200, right associativity).
Notation "m ;;; k" := (bind m (λ _, k))
  (at level 100, k at level 200, right associativity).

(** A call that returns or raises and touches no state. *)
Definition call {A} (r : result A) : M A := λ st, (st, r).

Definition batch_append (df : DataFrame) : M unit :=
  λ st, ({| current_batch := current_batch st ++ [df];
            sink := sink st; console := console st |}, Ok ()).

Definition batch_get : M (list DataFrame) :=
  λ st, (st, Ok (current_batch st)).

Definition batch_clear : M unit :=
  λ st, ({| current_batch := [];
            sink := sink st; console := console st |}, Ok ()).

Definition print (o : output) : M unit :=
  λ st, ({| current_batch := current_batch st;
            sink := sink st; console := console st ++ [o] |}, Ok ()).

Definition to_sql (w : World) (t : string) (df : DataFrame) : M unit :=
  λ st,
    if to_sql_ok w (length (statements (sink st))) then
      ({| current_batch := current_batch st;
          sink := append_rows t df (sink st); console := console st |}, Ok ())
    else
      ({| current_batch := current_batch st;
          sink := reject_rows t df (sink st); console := console st |},
       Err OperationalError).

(** Source lines 100-141: the [try] block of one iteration. *)
Definition try_block (w : World) (batch_size total_files : nat)
    (table_name : string) (schema_map : option (gmap string string))
    (i : nat) (file_path : string) : M unit :=
  do! df ← call (read_csv w file_path);
  do! df ← call (normalize_columns schema_map df);
  let df := select_all_cast_utf8 df in
  batch_append df;;;
  do! batch ← batch_get;
  if (batch_size <=? length batch)%nat || (i =? total_files - 1)%nat then
    (match batch with
     | [] => ret ()
     | _ :: _ =>
         do! combined_df ← call (concat_diagonal batch);
         to_sql w table_name combined_df
     end);;;
    print (Processed (i + 1) total_files);;;
    batch_clear
  else ret ().

(** Source lines 99-145: one iteration, with the handler. *)
Definition iteration (w : World) (batch_size total_files : nat)
    (table_name : string) (schema_map : option (gmap string string))
    (i : nat) (file_path : string) (st : LoopState) : LoopState :=
  match try_block w batch_size total_files table_name schema_map i file_path st with
  | (st', Ok _) => st'
  | (st', Err e) =>
      {| current_batch := current_batch st';
         sink := sink st';
         console := console st' ++ [ErrorProcessing file_path e] |}
  end.

(** [for i, file_path in enumerate(files)], from index [i] on. *)
Fixpoint ingest_loop (w : World) (batch_size total_files : nat)
    (table_name : string) (schema_map : option (gmap string string))
    (i : nat) (files : list string) (st : LoopState) : LoopState :=
  match files with
  | [] => st
  | file_path :: rest =>
      ingest_loop w batch_size total_files table_name schema_map (S i) rest
        (iteration w batch_size total_files table_name schema_map i file_path st)
  end.

(** The state in which the loop of [ingest_files] ends.  The source fixes
    [batch_size = 500] as a local; the loop takes it as an argument and
    [ingest_files] passes 500. *)
Definition ingest_run (w : World) (batch_size : nat) (file_pattern table_name : string)
    (schema_map : option (gmap string string)) (s : Sink) (out : list output)
    : LoopState :=
  let files := glob w file_pattern in
  let total_files := length files in
  ingest_loop w batch_size total_files table_name schema_map 0 files
    {| current_batch := []; sink := s;
       console := out ++ [Found total_files table_name] |}.

Definition batch_size : nat := 500.

Definition ingest_files_with (w : World) (batch_size : nat)
    (file_pattern table_name : string)
    (schema_map : option (gmap string string)) (s : Sink) (out : list output)
    : Sink * list output :=
  let st := ingest_run w batch_size file_pattern table_name schema_map s out in
  (sink st, console st ++ [Finished table_name]).

Definition ingest_files (w : World) (file_pattern table_name : string)
    (schema_map : option (gmap string string)) (s : Sink) (out : list output)
    : Sink * list output :=
  ingest_files_with w batch_size file_pattern table_name schema_map s out.

(** ** [main] *)

Definition SALES_DIR (w : World) : string := base_dir w +:+ "/data/raw_sales".
Definition INVENTORY_DIR (w : World) : string := base_dir w +:+ "/data/inventory".

(** A step of the reset block: it returns, or raises as SQLAlchemy does
    when the sink cannot be reached or refuses the statement. *)
Definition reset_step {A : Type} (w : World) (k : nat) (a : A) : result A :=
  if reset_ok w k then Ok a else Err OperationalError.

Definition execute_drop (w : World) (k : nat) (t : string) (s : Sink) : result Sink :=
  reset_step w k (drop_table_if_exists t s).

(** Source lines 168-171, the [with engine.connect() as conn] block: the
    two drops run in one transaction that the last line commits. *)
Definition reset_tables (w : World) (s : Sink) : result Sink :=
  try! conn ← reset_step w 0 ();
  try! s1 ← execute_drop w 1 "raw_sales" s;
  try! s2 ← execute_drop w 2 "raw_inventory" s1;
  try! committed ← reset_step w 3 ();
  Ok s2.

(** The reset block stands outside any [try]: when a step of it raises,
    the transaction is rolled back, so the sink is as it was, and the
    exception ends [main] after its first line. *)
Definition main (w : World) (s : Sink) : Sink * list output :=
  let out := [Starting] in
  match reset_tables w s with
  | Err e => (s, out ++ [Uncaught e])
  | Ok s =>
      let out := out ++ [Cleared] in
      let out := out ++ [Processing "SALES"] in
      let sales_pattern := SALES_DIR w +:+ "/*.csv" in
      let '(s, out) :=
        ingest_files w sales_pattern "raw_sales" (Some SALES_SCHEMA_MAP) s out in
      let out := out ++ [Processing "INVENTORY"] in
      let inventory_pattern := INVENTORY_DIR w +:+ "/*.csv" in
      let '(s, out) := ingest_files w inventory_pattern "raw_inventory" None s out in
      (s, out ++ [AllLoaded])
  end.

(** ** Vocabulary of the properties *)

(** The part of the [try] block that turns a path into a frame ready for
    the batch (source lines 102-120), and the test of source line 124. *)
Definition processed (w : World) (schema_map : option (gmap string string))
    (file_path : string) : result DataFrame :=
  try! df ← read_csv w file_path;
  try! df ← normalize_columns schema_map df;
  Ok (select_all_cast_utf8 df).

Definition flush_due (batch_size total_files i n : nat) : bool :=
  (batch_size <=? n)%nat || (i =? total_files - 1)%nat.

(** A frame all of whose columns hold text. *)
Definition text_frame (df : DataFrame) : Prop :=
  Forall (λ cs, dtype cs.2 = TUtf8) df.

(** What the cast, the renaming and the reconciliation do to one row. *)
Definition cast_row (r : row) : row :=
  fmap (M:=list) (λ cv : string * option cell,
                    (cv.1, fmap (M:=option) (CStr ∘ cast_cell) cv.2)) r.

Definition rename_row (mapping : gmap string string) (r : row) : row :=
  fmap (M:=list) (λ cv : string * option cell,
                    (rename_target mapping cv.1, cv.2)) r.

Definition reconcile_row (cols : list string) (r : row) : row :=
  fmap (M:=list) (λ c, (c, default None (row_get r c))) cols.

(** A schema all of whose columns hold text. *)
Definition text_schema (sch : Schema) : Prop := Forall (λ cd, cd.2 = TUtf8) sch.

(** All columns of a frame have the frame's height. *)
Definition uniform (df : DataFrame) : Prop :=
  Forall (λ cs, series_len cs.2 = height df) df.

(** The frames the files of a run turn into, in the order of the files;
    a file that raises contributes none. *)
Definition frames_of (w : World) (schema_map : option (gmap string string))
    (files : list string) : list DataFrame :=
  omap (λ p, ok_value (processed w schema_map p)) files.

(** The frames a list of statements committed to a table, in order. *)
Definition committed (t : string) (stmts : list statement) : list DataFrame :=
  omap (λ s, match s with
             | ToSql t' df true => if decide (t' = t) then Some df else None
             | _ => None
             end) stmts.

(** The frames a list of statements tried to write to a table, in order. *)
Definition attempted (t : string) (stmts : list statement) : list DataFrame :=
  omap (λ s, match s with
             | ToSql t' df _ => if decide (t' = t) then Some df else None
             | _ => None
             end) stmts.

Definition is_write_to (t : string) (s : statement) : Prop :=
  ∃ df ok, s = ToSql t df ok.

Definition table_rows (s : Sink) (t : string) : list row :=
  default [] (tables s !! t).

(** The rename dictionary the loop body ends up applying to a frame with
    columns [cols]: the one built from the schema map, or none. *)
Definition rename_plan (schema_map : option (gmap string string))
    (cols : list string) : gmap string string :=
  match schema_map with
  | Some m => build_rename_dict m cols
  | None => ∅
  end.

(** Two loop states that hold the same batch and the same sink; their
    consoles may differ. *)
Definition same_data (st st' : LoopState) : Prop :=
  current_batch st = current_batch st' ∧ sink st = sink st'.

(** Lines of a kind on the console. *)
Definition is_progress (o : output) : bool :=
  match o with Processed _ _ => true | _ => false end.

Definition is_error (o : output) : bool :=
  match o with ErrorProcessing _ _ => true | _ => false end.

Fixpoint count_lines (kind : output → bool) (out : list output) : nat :=
  match out with
  | [] => 0
  | o :: rest => (if kind o then 1 else 0) + count_lines kind rest
  end.
(** ** The files the generators write

    [generate_transactions.main] (lines 323-328) and
    [generate_inventory.main] (lines 183-191) fix the header of every CSV
    file the pipeline reads; [generate_daily_sales] (lines 249, 258-260)
    picks the name of the date column. *)

(** [l.insert(i, x)] for an index [i ≥ 0]. *)
Definition list_insert_at {A : Type} (i : nat) (x : A) (l : list A) : list A :=
  take i l ++ x :: drop i l.

(** The value of [row['date_header']]; a datetime is counted in days, and
    [None] is the only break date that is false. *)
Definition date_header (break_date : option Z) (current_date : Z) : string :=
  match break_date with
  | Some b => if bool_decide (b ≤ current_date)%Z then "date_of_sale" else "sale_date"
  | None => "sale_date"
  end.

Definition sales_csv_keys (date_col_name : string) : list string :=
  list_insert_at 2 date_col_name
    ["transaction_id"; "store_id"; "product_id"; "product_name";
     "quantity"; "unit_price"; "total_amount"].

Definition inventory_csv_keys : list string :=
  ["delivery_id"; "delivery_date"; "store_id"; "product_id"; "product_name";
   "quantity_delivered"; "delivery_status"].

End Pipeline.

(** * Worked runs

    Small worlds on which the functions are evaluated.  Their frames hold
    no floats, so the float type is empty. *)

#[local] Instance no_floats : FloatFormat Empty_set := λ f, match f with end.

Definition empty_sink : @Sink Empty_set := MkSink ∅ [].

Definition sales_frame (store : string) : @DataFrame Empty_set :=
  [ ("tx_id", Utf8 [Some "T1"; Some "T2"]);
    ("store_id", Utf8 [Some store; Some store]);
    ("qty", Int64 [Some 3%Z; None]);
    ("price", Boolean [Some true; Some false]) ].

Definition drifted_frame : @DataFrame Empty_set :=
  [ ("transaction_id", Utf8 [Some "T9"]);
    ("date_of_sale", Utf8 [Some "2024-01-05"]);
    ("quantity", Int64 [Some 7%Z]) ].

Definition colliding_frame : @DataFrame Empty_set :=
  [ ("qty", Int64 [Some 2%Z]);
    ("quant", Int64 [Some 3%Z]) ].

(** Three readable files, a sink that takes every write. *)
Definition three_files : @World Empty_set :=
  {| base_dir := "/srv/greengrocer";
     glob := λ _, ["s1.csv"; "s2.csv"; "s3.csv"];
     read_csv := λ p, if decide (p = "s2.csv") then Ok drifted_frame
                      else Ok (sales_frame p);
     to_sql_ok := λ _, true;
     reset_ok := λ _, true |}.

(** Discharges a decidable side condition by evaluation. *)
Ltac by_evaluation :=
  match goal with
  | |- ?P => apply (bool_decide_unpack P); vm_compute; exact I
  end.

(** A file whose columns [qty] and [quant] both stand for [quantity]. *)
Definition colliding_file : @World Empty_set :=
  {| base_dir := "/srv/greengrocer";
     glob := λ _, ["drift.csv"];
     read_csv := λ _, Ok colliding_frame;
     to_sql_ok := λ _, true;
     reset_ok := λ _, true |}.

(** Two files, one frame per batch, a sink that rejects the first statement
    it is sent and takes the later ones. *)
Definition first_write_fails : @World Empty_set :=
  {| base_dir := "/srv/greengrocer";
     glob := λ _, ["s1.csv"; "s2.csv"];
     read_csv := λ p, if decide (p = "s2.csv") then Ok drifted_frame
                      else Ok (sales_frame p);
     to_sql_ok := λ n, negb (n =? 0);
     reset_ok := λ _, true |}.

Definition s1_frame : @DataFrame Empty_set :=
  Eval vm_compute in select_all_cast_utf8 (sales_frame "s1.csv").

Definition start_state : @LoopState Empty_set :=
  {| current_batch := []; sink := empty_sink; console := [] |}.

(** 501 inventory files of one row each, and a sink that rejects the first
    statement it is sent and takes the later ones. *)
Definition delivery_frame (p : string) : @DataFrame Empty_set :=
  [ ("delivery_id", Utf8 [Some p]); ("quantity_delivered", Int64 [Some 12%Z]) ].

Definition many_files : @World Empty_set :=
  {| base_dir := "/srv/greengrocer";
     glob := λ _, (λ i, "d" +:+ pretty i +:+ ".csv") <$> seq 0 501;
     read_csv := λ p, Ok (delivery_frame p);
     to_sql_ok := λ n, negb (n =? 0);
     reset_ok := λ _, true |}.

(** Two sales files; the second cannot be read. *)
Definition corrupt_last_file : @World Empty_set :=
  {| base_dir := "/srv/greengrocer";
     glob := λ _, ["s1.csv"; "s2.csv"];
     read_csv := λ p, if decide (p = "s2.csv") then Err ReadError
                      else Ok (sales_frame p);
     to_sql_ok := λ _, true;
     reset_ok := λ _, true |}.

(** [sales_frame "S1"] after the renaming step. *)
Definition canonical_frame : @DataFrame Empty_set :=
  [ ("transaction_id", Utf8 [Some "T1"; Some "T2"]);
    ("store_id", Utf8 [Some "S1"; Some "S1"]);
    ("quantity", Int64 [Some 3%Z; None]);
    ("unit_price", Boolean [Some true; Some false]) ].

(** A sales file written before the store's schema drift, and one after. *)
Definition before_drift : @DataFrame Empty_set :=
  [ ("transaction_id", Utf8 [Some "TXN-1672531200-4821"]);
    ("store_id", Utf8 [Some "STORE_001"]);
    ("sale_date", Utf8 [Some "2023-01-01"]);
    ("product_id", Utf8 [Some "3017620422003"]);
    ("product_name", Utf8 [Some "Nutella"]);
    ("quantity", Utf8 [Some "2"]);
    ("unit_price", Utf8 [Some "4.5"]);
    ("total_amount", Utf8 [Some "9.0"]) ].

Definition after_drift : @DataFrame Empty_set :=
  [ ("transaction_id", Utf8 [Some "TXN-1704067200-1190"]);
    ("store_id", Utf8 [Some "STORE_001"]);
    ("date_of_sale", Utf8 [Some "2024-01-01"]);
    ("product_id", Utf8 [Some "3017620422003"]);
    ("product_name", Utf8 [Some "Nutela"]);
    ("quantity", Utf8 [Some "1"]);
    ("unit_price", Utf8 [Some "4.5"]);
    ("total_amount", Utf8 [Some "4.5"]) ].
(** Three sales files, the second unreadable; a sink that takes every
    write. *)
Definition corrupt_middle_file : @World Empty_set :=
  {| base_dir := "/srv/greengrocer";
     glob := λ _, ["s1.csv"; "bad.csv"; "s3.csv"];
     read_csv := λ p, if decide (p = "bad.csv") then Err ReadError
                      else Ok (sales_frame p);
     to_sql_ok := λ _, true;
     reset_ok := λ _, true |}.

(** Three readable files and a sink that cannot be reached when [main]
    opens its connection. *)
Definition unreachable_sink : @World Empty_set :=
  {| base_dir := "/srv/greengrocer";
     glob := λ _, ["s1.csv"; "s2.csv"; "s3.csv"];
     read_csv := λ p, Ok (sales_frame p);
     to_sql_ok := λ _, true;
     reset_ok := λ _, false |}.

(** Directories without a file. *)
Definition empty_directories : @World Empty_set :=
  {| base_dir := "/srv/greengrocer";
     glob := λ _, [];
     read_csv := λ _, Err ReadError;
     to_sql_ok := λ _, true;
     reset_ok := λ _, true |}.

(** Directories without a file and a sink that refuses the first drop. *)
Definition unreachable_empty : @World Empty_set :=
  {| base_dir := "/srv/greengrocer";
     glob := λ _, [];
     read_csv := λ _, Err ReadError;
     to_sql_ok := λ _, true;
     reset_ok := λ k, negb (k =? 1) |}.

(** A sink that holds the two raw tables and a table of its own. *)
Definition used_sink : @Sink Empty_set :=
  MkSink (list_to_map
            [ ("raw_sales", rows_of before_drift);
              ("raw_inventory", rows_of (delivery_frame "d0.csv"));
              ("dim_store", rows_of after_drift) ]) [].
(** Three readable files, a sink that takes no write. *)
Definition sink_down : @World Empty_set :=
  {| base_dir := "/srv/greengrocer";
     glob := λ _, ["s1.csv"; "s2.csv"; "s3.csv"];
     read_csv := λ p, Ok (sales_frame p);
     to_sql_ok := λ _, false;
     reset_ok := λ _, true |}.

(** * Properties *)

Section Properties.

Context {F : Type} {float_format : FloatFormat F}.

#[local] Abbreviation Series := (@Series F).
#[local] Abbreviation cell := (@cell F).
#[local] Abbreviation DataFrame := (@DataFrame F).
#[local] Abbreviation row := (@row F).
#[local] Abbreviation statement := (@statement F).
#[local] Abbreviation Sink := (@Sink F).
#[local] Abbreviation World := (@World F).
#[local] Abbreviation LoopState := (@LoopState F).
#[local] Abbreviation full_null := (@full_null F).

(** ** The rename dictionary *)

Lemma build_rename_dict_acc (m acc : gmap string string) (C : list string) (c : string) :
  foldl (λ rename_dict col,
           match m !! col with
           | Some target => <[col := target]> rename_dict
           | None => rename_dict
           end) acc C !! c
  = if decide (c ∈ C) then (match m !! c with Some v => Some v | None => acc !! c end) else acc !! c.
Proof.
  revert acc. induction C as [|x C IH]; intros acc; simpl.
  - destruct (decide (c ∈ [])) as [H|H]; [by apply elem_of_nil in H | done].
  - rewrite IH.
    destruct (decide (c ∈ x :: C)) as [Hin|Hout], (decide (c ∈ C)) as [Hin'|Hout'].
    + destruct (m !! c) eqn:Hc; [done|].
      destruct (decide (x = c)) as [->|Hne]; [by rewrite Hc|].
      destruct (m !! x); [by rewrite lookup_insert_ne | done].
    + assert (c = x) as -> by set_solver.
      destruct (m !! x); [by rewrite lookup_insert_eq | done].
    + set_solver.
    + assert (x ≠ c) by set_solver.
      destruct (m !! x); [by rewrite lookup_insert_ne | done].
Qed.

Lemma build_rename_dict_lookup (m : gmap string string) (C : list string) (c : string) :
  build_rename_dict m C !! c = if decide (c ∈ C) then m !! c else None.
Proof.
  unfold build_rename_dict. rewrite build_rename_dict_acc.
  case_decide; [by destruct (m !! c) | apply lookup_empty].
Qed.

Lemma rename_target_build (m : gmap string string) (C : list string) (c : string) :
  c ∈ C → rename_target (build_rename_dict m C) c = default c (m !! c).
Proof.
  intros Hc. unfold rename_target. by rewrite build_rename_dict_lookup, decide_True.
Qed.

(** ** One iteration of the loop, case by case *)

Ltac unfold_iteration :=
  unfold iteration, try_block, processed, bind, call, batch_append, batch_get,
    batch_clear, print, ret, to_sql, flush_due, rbind in *; simpl in *.

Section Iteration.
Context (w : World) (K total : nat) (t : string) (sm : option (gmap string string)).
Context (i : nat) (p : string) (st : LoopState).

Lemma iteration_skip e :
  processed w sm p = Err e →
  iteration w K total t sm i p st
  = {| current_batch := current_batch st; sink := sink st;
       console := console st ++ [ErrorProcessing p e] |}.
Proof.
  intros H. unfold_iteration.
  destruct (read_csv w p) as [raw|]; simpl in *; [|by simplify_eq].
  destruct (normalize_columns sm raw); simpl in *; by simplify_eq.
Qed.

Lemma iteration_append df :
  processed w sm p = Ok df →
  flush_due K total i (length (current_batch st ++ [df])) = false →
  iteration w K total t sm i p st
  = {| current_batch := current_batch st ++ [df]; sink := sink st;
       console := console st |}.
Proof.
  intros H Hd. unfold_iteration.
  destruct (read_csv w p) as [raw|]; simpl in *; [|by simplify_eq].
  destruct (normalize_columns sm raw); simpl in *; simplify_eq.
  by rewrite Hd.
Qed.

Lemma iteration_flush df :
  processed w sm p = Ok df →
  flush_due K total i (length (current_batch st ++ [df])) = true →
  iteration w K total t sm i p st
  = match concat_diagonal (current_batch st ++ [df]) with
    | Ok combined =>
        if to_sql_ok w (length (statements (sink st))) then
          {| current_batch := [];
             sink := append_rows t combined (sink st);
             console := console st ++ [Processed (i + 1) total] |}
        else
          {| current_batch := current_batch st ++ [df];
             sink := reject_rows t combined (sink st);
             console := console st ++ [ErrorProcessing p OperationalError] |}
    | Err e =>
        {| current_batch := current_batch st ++ [df]; sink := sink st;
           console := console st ++ [ErrorProcessing p e] |}
    end.
Proof.
  intros H Hd. unfold_iteration.
  destruct (read_csv w p) as [raw|]; simpl in *; [|by simplify_eq].
  destruct (normalize_columns sm raw); simpl in *; simplify_eq.
  rewrite Hd.
  destruct (current_batch st ++ [_]) as [|d b] eqn:Hb.
  { by destruct (current_batch st). }
  destruct (concat_diagonal (d :: b)); simpl; [|done].
  by destruct (to_sql_ok w _).
Qed.
End Iteration.

(** ** Frames: columns, heights and rows *)

Lemma values_length (s : Series) : length (values s) = series_len s.
Proof. destruct s; simpl; by rewrite length_fmap. Qed.

Lemma values_full_null (dt : DataType) (n i : nat) :
  default None (values (full_null dt n) !! i) = None.
Proof.
  destruct dt; simpl; rewrite list_lookup_fmap;
    destruct (replicate n None !! i) as [o|] eqn:H; simpl; try done;
    by apply lookup_replicate in H as [-> _].
Qed.

Lemma series_len_full_null (dt : DataType) (n : nat) :
  series_len (full_null dt n) = n.
Proof. destruct dt; simpl; apply length_replicate. Qed.

Lemma dtype_full_null (dt : DataType) (n : nat) : dtype (full_null dt n) = dt.
Proof. by destruct dt. Qed.

Lemma get_column_Some (df : DataFrame) (c : string) (s : Series) :
  get_column df c = Some s → (c, s) ∈ df.
Proof.
  induction df as [|[c' s'] df IH]; simpl; [done|].
  destruct (decide (c' = c)) as [->|]; intros H.
  - simplify_eq. left.
  - right. auto.
Qed.

Lemma get_column_None (df : DataFrame) (c : string) :
  get_column df c = None ↔ c ∉ columns df.
Proof.
  unfold columns. induction df as [|[c' s'] df IH]; simpl.
  - split; [intros _; apply not_elem_of_nil | done].
  - destruct (decide (c' = c)) as [->|Hne].
    + split; [done | intros H; exfalso; apply H; left].
    + rewrite IH, not_elem_of_cons. naive_solver.
Qed.

Lemma row_get_row_at (df : DataFrame) (i : nat) (c : string) :
  row_get (row_at df i) c = (λ s, default None (values s !! i)) <$> get_column df c.
Proof.
  induction df as [|[c' s'] df IH]; simpl; [done|].
  destruct (decide (c' = c)); [done | apply IH].
Qed.

Lemma row_at_columns (df : DataFrame) (i : nat) : (row_at df i).*1 = columns df.
Proof.
  unfold row_at, columns. rewrite <- list_fmap_compose. by apply list_fmap_ext.
Qed.

Lemma length_rows_of (df : DataFrame) : length (rows_of df) = height df.
Proof. unfold rows_of. by rewrite length_fmap, length_seq. Qed.

(** ** Casting and renaming keep a frame's shape *)

Lemma cast_utf8_values (s : Series) :
  values (cast_utf8 s) = fmap (M:=option) (CStr ∘ cast_cell) <$> values s.
Proof.
  destruct s; simpl; rewrite <- !list_fmap_compose;
    apply list_fmap_ext; intros _ [x|] _; done.
Qed.

Lemma cast_utf8_len (s : Series) : series_len (cast_utf8 s) = series_len s.
Proof. destruct s; simpl; by rewrite ?length_fmap. Qed.

Lemma cast_utf8_dtype (s : Series) : dtype (cast_utf8 s) = TUtf8.
Proof. by destruct s. Qed.

Lemma cast_utf8_text (s : Series) : dtype s = TUtf8 → cast_utf8 s = s.
Proof. by destruct s. Qed.

Lemma cast_frame_columns (df : DataFrame) :
  columns (select_all_cast_utf8 df) = columns df.
Proof.
  unfold columns, select_all_cast_utf8. rewrite <- list_fmap_compose.
  by apply list_fmap_ext.
Qed.

Lemma cast_frame_height (df : DataFrame) :
  height (select_all_cast_utf8 df) = height df.
Proof. destruct df as [|[c s] df]; simpl; [done | apply cast_utf8_len]. Qed.

Lemma cast_frame_text (df : DataFrame) : text_frame (select_all_cast_utf8 df).
Proof.
  unfold text_frame, select_all_cast_utf8. rewrite Forall_fmap.
  apply Forall_forall. intros [c s] _. apply cast_utf8_dtype.
Qed.

Lemma cast_frame_ok (df : DataFrame) :
  frame_ok df → frame_ok (select_all_cast_utf8 df).
Proof.
  intros [Hnd Hlen]. split.
  - by rewrite cast_frame_columns.
  - rewrite cast_frame_height. unfold select_all_cast_utf8.
    rewrite Forall_fmap. eapply Forall_impl; [exact Hlen|].
    intros [c s]; simpl. by rewrite cast_utf8_len.
Qed.

Lemma cast_frame_rows (df : DataFrame) :
  rows_of (select_all_cast_utf8 df)
  = fmap (M:=list) cast_row (rows_of df).
Proof.
  unfold rows_of. rewrite cast_frame_height, <- list_fmap_compose.
  apply list_fmap_ext. intros _ i _. simpl.
  unfold row_at, cast_row, select_all_cast_utf8. rewrite <- !list_fmap_compose.
  apply list_fmap_ext. intros _ [c s] _. simpl. f_equal.
  rewrite cast_utf8_values, list_lookup_fmap.
  by destruct (values s !! i).
Qed.

Lemma rename_columns (df df' : DataFrame) (mapping : gmap string string) :
  rename df mapping = Ok df' →
  columns df' = rename_target mapping <$> columns df.
Proof.
  unfold rename. case_decide; intros ?; simplify_eq.
  unfold columns. rewrite <- !list_fmap_compose. by apply list_fmap_ext.
Qed.

Lemma rename_height (df df' : DataFrame) (mapping : gmap string string) :
  rename df mapping = Ok df' → height df' = height df.
Proof.
  unfold rename. case_decide; intros ?; simplify_eq.
  by destruct df as [|[c s] df].
Qed.

Lemma rename_frame_ok (df df' : DataFrame) (mapping : gmap string string) :
  rename df mapping = Ok df' → frame_ok df → frame_ok df'.
Proof.
  intros Hr [_ Hlen]. split.
  - revert Hr. unfold rename. case_decide; intros ?; by simplify_eq.
  - rewrite (rename_height _ _ _ Hr).
    revert Hr. unfold rename. case_decide; intros ?; simplify_eq.
    rewrite Forall_fmap. eapply Forall_impl; [exact Hlen|]. by intros [c s].
Qed.

Lemma rename_rows (df df' : DataFrame) (mapping : gmap string string) :
  rename df mapping = Ok df' →
  rows_of df'
  = fmap (M:=list) (rename_row mapping) (rows_of df).
Proof.
  intros Hr. unfold rows_of. rewrite (rename_height _ _ _ Hr), <- list_fmap_compose.
  revert Hr. unfold rename. case_decide; intros ?; simplify_eq.
  apply list_fmap_ext. intros _ i _. simpl.
  unfold row_at, rename_row. rewrite <- !list_fmap_compose. by apply list_fmap_ext.
Qed.

(** ** The union schema *)

Lemma merge_schema_spec (acc sch : Schema) :
  NoDup acc.*1 →
  NoDup (merge_schema acc sch).*1
  ∧ (∀ c, c ∈ (merge_schema acc sch).*1 ↔ c ∈ acc.*1 ∨ c ∈ sch.*1)
  ∧ (text_schema acc → text_schema sch → text_schema (merge_schema acc sch)).
Proof.
  unfold merge_schema. revert acc.
  induction sch as [|[c dt] sch IH]; intros acc Hnd; simpl.
  - split_and!; [done | set_solver | done].
  - destruct (decide (c ∈ acc.*1)) as [Hin|Hout].
    + destruct (IH acc Hnd) as (H1 & H2 & H3). split_and!; [done | |].
      * intros c'. rewrite H2. set_solver.
      * intros Ha Hs. apply H3; [done | by inversion Hs].
    + assert (NoDup (acc ++ [(c, dt)]).*1) as Hnd'.
      { rewrite fmap_app. apply NoDup_app. split_and!; [done | | apply NoDup_singleton].
        intros x Hx Hx'. simpl in Hx'. apply list_elem_of_singleton in Hx'. by subst. }
      destruct (IH _ Hnd') as (H1 & H2 & H3). split_and!; [done | |].
      * intros c'. rewrite H2, fmap_app. set_solver.
      * intros Ha Hs. inversion Hs; subst. apply H3; [|done].
        apply Forall_app. split; [done | by apply Forall_singleton].
Qed.

Lemma union_schema_acc (acc : Schema) (dfs : list DataFrame) :
  NoDup acc.*1 →
  let sch := foldl (λ acc df, merge_schema acc (schema_of df)) acc dfs in
  NoDup sch.*1
  ∧ (∀ c, c ∈ sch.*1 ↔ c ∈ acc.*1 ∨ ∃ df, df ∈ dfs ∧ c ∈ columns df)
  ∧ (text_schema acc → Forall text_frame dfs → text_schema sch).
Proof.
  revert acc. induction dfs as [|df dfs IH]; intros acc Hnd; simpl.
  - split_and!; [done | | done]. intros c. split; [auto|].
    intros [?|(df & Hdf & _)]; [done | by apply elem_of_nil in Hdf].
  - destruct (merge_schema_spec acc (schema_of df) Hnd) as (H1 & H2 & H3).
    destruct (IH _ H1) as (I1 & I2 & I3). split_and!; [done | |].
    + intros c. rewrite I2, H2.
      assert ((schema_of df).*1 = columns df) as ->.
      { unfold schema_of, columns. rewrite <- list_fmap_compose. by apply list_fmap_ext. }
      split.
      * intros [[?|?]|(d & Hd & Hc)]; [by left | right; exists df; split; [left|done] |].
        right. exists d. split; [by right | done].
      * intros [?|(d & Hd & Hc)]; [by left; left|].
        apply elem_of_cons in Hd as [->|Hd]; [left; by right | right; eauto].
    + intros Ha Hd. inversion Hd; subst. apply I3; [|done]. apply H3; [done|].
      unfold text_schema, schema_of. rewrite Forall_fmap. done.
Qed.

Lemma union_schema_spec (dfs : list DataFrame) :
  NoDup (union_schema dfs).*1
  ∧ (∀ c, c ∈ (union_schema dfs).*1 ↔ ∃ df, df ∈ dfs ∧ c ∈ columns df)
  ∧ (Forall text_frame dfs → text_schema (union_schema dfs)).
Proof.
  destruct (union_schema_acc [] dfs) as (H1 & H2 & H3); [apply NoDup_nil_2|].
  split_and!; [done | | ].
  - intros c. rewrite H2. split; [|auto]. intros [H|H]; [by apply elem_of_nil in H | done].
  - intros H. apply H3; [constructor | done].
Qed.

(** ** Alignment to the union schema *)

Lemma align_columns (sch : Schema) (df : DataFrame) : columns (align sch df) = sch.*1.
Proof.
  unfold align, columns. rewrite <- list_fmap_compose. by apply list_fmap_ext.
Qed.

Lemma align_series_len (sch : Schema) (df : DataFrame) :
  frame_ok df → Forall (λ cs, series_len cs.2 = height df) (align sch df).
Proof.
  intros [_ Hlen]. unfold align. rewrite Forall_fmap. apply Forall_forall.
  intros [c dt] _. simpl. destruct (get_column df c) as [s|] eqn:Hc; simpl.
  - apply get_column_Some in Hc. rewrite Forall_forall in Hlen. by apply (Hlen (c, s)).
  - apply series_len_full_null.
Qed.

Lemma align_text (sch : Schema) (df : DataFrame) :
  text_schema sch → text_frame df → text_frame (align sch df).
Proof.
  intros Hs Hd. unfold text_frame, align. rewrite Forall_fmap.
  eapply Forall_impl; [exact Hs|]. intros [c dt] ?; simpl in *; subst.
  destruct (get_column df c) as [s|] eqn:Hc; simpl; [|done].
  apply get_column_Some in Hc. unfold text_frame in Hd.
  rewrite Forall_forall in Hd. by apply (Hd (c, s)).
Qed.

Lemma align_row_at (sch : Schema) (df : DataFrame) (i : nat) :
  row_at (align sch df) i = reconcile_row sch.*1 (row_at df i).
Proof.
  unfold row_at, reconcile_row, align. rewrite <- !list_fmap_compose.
  apply list_fmap_ext. intros _ [c dt] _. simpl. f_equal.
  fold (row_at df i). rewrite row_get_row_at. destruct (get_column df c); simpl; [done|].
  apply values_full_null.
Qed.

(** ** Stacking *)

Lemma append_series_ok (a b r : Series) :
  append_series a b = Ok r →
  values r = values a ++ values b
  ∧ series_len r = series_len a + series_len b
  ∧ dtype r = dtype a.
Proof.
  destruct a, b; simpl; intros H; simplify_eq; simpl;
    by rewrite fmap_app, length_app.
Qed.

Lemma append_series_text (a b : Series) :
  dtype a = TUtf8 → dtype b = TUtf8 → ∃ r, append_series a b = Ok r.
Proof. destruct a, b; simpl; intros; simplify_eq; eauto. Qed.

Lemma vstack_text (a b : DataFrame) :
  columns a = columns b → text_frame a → text_frame b → ∃ r, vstack a b = Ok r.
Proof.
  revert b. induction a as [|[c s] a IH]; intros [|[c' s'] b] Hc Ha Hb;
    simpl in *; simplify_eq; [eauto|].
  inversion Ha; inversion Hb; simplify_eq; simpl in *.
  rewrite decide_True by done.
  destruct (append_series_text s s') as [s'' ->]; [done..|].
  destruct (IH b) as [r ->]; [done..|]. simpl. eauto.
Qed.

Lemma vstack_ok (a b r : DataFrame) (ha hb : nat) :
  vstack a b = Ok r →
  Forall (λ cs, series_len cs.2 = ha) a →
  Forall (λ cs, series_len cs.2 = hb) b →
  columns r = columns a
  ∧ columns b = columns a
  ∧ Forall (λ cs, series_len cs.2 = ha + hb) r
  ∧ (text_frame a → text_frame r)
  ∧ (∀ i, i < ha → row_at r i = row_at a i)
  ∧ (∀ j, row_at r (ha + j) = row_at b j).
Proof.
  revert b r. induction a as [|[c s] a IH]; intros [|[c' s'] b] r Hv Ha Hb;
    simpl in *; simplify_eq.
  { split_and!; done. }
  destruct (decide (c = c')) as [->|]; [|done].
  destruct (append_series s s') as [s''|] eqn:Hs; simpl in *; [|done].
  destruct (vstack a b) as [r'|] eqn:Hr; simpl in *; simplify_eq.
  inversion Ha; inversion Hb; simplify_eq; simpl in *.
  destruct (IH b r') as (I1 & I2 & I3 & I4 & I5 & I6); [done..|].
  destruct (append_series_ok _ _ _ Hs) as (V1 & V2 & V3).
  split_and!.
  - by rewrite I1.
  - by rewrite I2.
  - constructor; [done | done].
  - intros Ht. inversion Ht; subst.
    apply Forall_cons; split; [simpl in *; congruence | by apply I4].
  - intros i Hi. rewrite I5 by done. do 2 f_equal.
    rewrite V1, lookup_app_l; [done|]. by rewrite values_length.
  - intros j. rewrite I6. do 2 f_equal.
    rewrite V1, lookup_app_r; rewrite values_length; [|lia].
    do 2 f_equal. lia.
Qed.

Lemma rows_of_vstack (a b r : DataFrame) :
  vstack a b = Ok r →
  Forall (λ cs, series_len cs.2 = height a) a →
  Forall (λ cs, series_len cs.2 = height b) b →
  rows_of r = rows_of a ++ rows_of b
  ∧ height r = height a + height b.
Proof.
  intros Hv Ha Hb.
  destruct (vstack_ok _ _ _ _ _ Hv Ha Hb) as (C1 & C2 & L & _ & R1 & R2).
  assert (height r = height a + height b) as Hh.
  { destruct r as [|[c s] r].
    - destruct a; [|done]. destruct b; [done|done].
    - by inversion L. }
  split; [|done]. unfold rows_of. rewrite Hh, seq_app, fmap_app. f_equal.
  - apply list_fmap_ext. intros k i Hi%lookup_seq. apply R1. lia.
  - simpl.
    replace (seq (height a) (height b))
      with ((λ x, height a + x) <$> seq 0 (height b))
      by (rewrite fmap_add_seq; f_equal; lia).
    rewrite <- list_fmap_compose.
    apply list_fmap_ext. intros _ j _. apply R2.
Qed.

(** ** Diagonal concatenation of text frames *)

Lemma vstack_uniform (a b r : DataFrame) :
  vstack a b = Ok r → uniform a → uniform b → uniform r.
Proof.
  intros Hv Ha Hb. destruct (rows_of_vstack _ _ _ Hv Ha Hb) as [_ Hh].
  destruct (vstack_ok _ _ _ _ _ Hv Ha Hb) as (_ & _ & L & _).
  unfold uniform. by rewrite Hh.
Qed.

Lemma vstack_all_text (cols : list string) (rest : list DataFrame) (first : DataFrame) :
  columns first = cols → text_frame first → uniform first →
  Forall (λ df, columns df = cols ∧ text_frame df ∧ uniform df) rest →
  ∃ w, vstack_all first rest = Ok w
       ∧ columns w = cols ∧ text_frame w ∧ uniform w
       ∧ rows_of w = rows_of first ++ (rest ≫= rows_of).
Proof.
  unfold vstack_all. revert first.
  induction rest as [|df rest IH]; intros first Hc Ht Hu Hrest; simpl.
  - exists first. by rewrite app_nil_r.
  - apply Forall_cons in Hrest as [(Hc' & Ht' & Hu') Hrest].
    destruct (vstack_text first df) as [r Hr]; [congruence | done..|].
    rewrite Hr.
    destruct (vstack_ok _ _ _ _ _ Hr Hu Hu') as (C1 & _ & _ & T & _).
    destruct (rows_of_vstack _ _ _ Hr Hu Hu') as [R _].
    destruct (IH r) as (w & Hw & W1 & W2 & W3 & W4);
      [congruence | auto | by eapply vstack_uniform | done |].
    exists w. split_and!; [done..|]. by rewrite W4, R, <- app_assoc.
Qed.

Lemma align_height (sch : Schema) (df : DataFrame) :
  frame_ok df → (∀ c, c ∈ columns df → c ∈ sch.*1) →
  height (align sch df) = height df.
Proof.
  intros Hok Hsub. pose proof (align_series_len sch df Hok) as Hlen.
  destruct sch as [|[c dt] sch]; simpl in *.
  - destruct df as [|[c s] df]; [done|].
    exfalso. eapply not_elem_of_nil, (Hsub c). left.
  - by inversion Hlen.
Qed.

Lemma rows_of_align (sch : Schema) (df : DataFrame) :
  frame_ok df → (∀ c, c ∈ columns df → c ∈ sch.*1) →
  rows_of (align sch df) = fmap (M:=list) (reconcile_row sch.*1) (rows_of df).
Proof.
  intros Hok Hsub. unfold rows_of. rewrite align_height by done.
  rewrite <- list_fmap_compose. apply list_fmap_ext. intros _ i _.
  apply align_row_at.
Qed.

Lemma concat_diagonal_text (dfs : list DataFrame) :
  dfs ≠ [] → Forall frame_ok dfs → Forall text_frame dfs →
  ∃ w, concat_diagonal dfs = Ok w
       ∧ columns w = (union_schema dfs).*1
       ∧ text_frame w ∧ frame_ok w
       ∧ rows_of w
         = dfs ≫= (λ df, fmap (M:=list) (reconcile_row (columns w)) (rows_of df)).
Proof.
  intros Hne Hok Htext. unfold concat_diagonal.
  destruct (union_schema_spec dfs) as (Hnd & Hin & Hts).
  specialize (Hts Htext). set (sch := union_schema dfs) in *.
  assert (Forall (λ df, columns (align sch df) = sch.*1
                        ∧ text_frame (align sch df) ∧ uniform (align sch df)
                        ∧ rows_of (align sch df)
                          = fmap (M:=list) (reconcile_row sch.*1) (rows_of df)) dfs)
    as Hall.
  { apply Forall_forall. intros df Hdf.
    rewrite Forall_forall in Hok. rewrite Forall_forall in Htext.
    assert (∀ c, c ∈ columns df → c ∈ sch.*1) as Hsub.
    { intros c Hc. apply Hin. eauto. }
    split_and!.
    - apply align_columns.
    - apply align_text; auto.
    - unfold uniform. rewrite align_height by auto. apply align_series_len. auto.
    - apply rows_of_align; auto. }
  destruct dfs as [|d ds]; [done|]. simpl.
  apply Forall_cons in Hall as [(D1 & D2 & D3 & D4) Hall].
  destruct (vstack_all_text sch.*1 (align sch <$> ds) (align sch d))
    as (w & Hw & W1 & W2 & W3 & W4); [done..| |].
  { rewrite Forall_fmap. eapply Forall_impl; [exact Hall|]. naive_solver. }
  exists w. split_and!; [done..| |].
  - split; [by rewrite W1 | done].
  - rewrite W4, W1, D4. f_equal.
    clear -Hall. clearbody sch.
    induction ds as [|x ds IH]; simpl; [done|].
    apply Forall_cons in Hall as [(_ & _ & _ & X) Hall].
    rewrite X. f_equal. exact (IH Hall).
Qed.

(** ** The loop: what a run leaves in the batch and in the sink *)

Section Loop.
Context (w : World) (K total : nat) (t : string) (sm : option (gmap string string)).

Lemma committed_app (l1 l2 : list statement) :
  committed t (l1 ++ l2) = committed t l1 ++ committed t l2.
Proof. unfold committed. apply omap_app. Qed.

Lemma frames_of_cons (p : string) (files : list string) :
  frames_of w sm (p :: files)
  = match processed w sm p with
    | Ok df => df :: frames_of w sm files
    | Err _ => frames_of w sm files
    end.
Proof. unfold frames_of. simpl. by destruct (processed w sm p). Qed.

Lemma ingest_loop_invariant (files : list string) (i : nat) (st : LoopState) :
  let st' := ingest_loop w K total t sm i files st in
  ∃ (batches : list (list DataFrame)) (ws : list DataFrame) (news : list statement),
    current_batch st ++ frames_of w sm files = concat batches ++ current_batch st'
    ∧ Forall2 (λ b wdf, b ≠ [] ∧ concat_diagonal b = Ok wdf) batches ws
    ∧ statements (sink st') = statements (sink st) ++ news
    ∧ Forall (is_write_to t) news
    ∧ committed t news = ws
    ∧ tables (sink st') !! t
      = match ws with
        | [] => tables (sink st) !! t
        | _ :: _ => Some (table_rows (sink st) t ++ (ws ≫= rows_of))
        end
    ∧ (∀ t', t' ≠ t → tables (sink st') !! t' = tables (sink st) !! t').
Proof.
  revert i st. induction files as [|p files IH]; intros i st; cbn [ingest_loop].
  { exists [], [], []. simpl. rewrite !app_nil_r. split_and!; by constructor. }
  rewrite frames_of_cons.
  destruct (IH (S i) (iteration w K total t sm i p st))
    as (bs & ws & news & B & C & Hst & N & W & T & O).
  destruct (processed w sm p) as [df|e] eqn:Hp.
  2:{ rewrite (iteration_skip _ _ _ _ _ _ _ _ _ Hp) in *. simpl in *.
      exists bs, ws, news. by split_and!. }
  destruct (flush_due K total i (length (current_batch st ++ [df]))) eqn:Hd.
  2:{ rewrite (iteration_append _ _ _ _ _ _ _ _ _ Hp Hd) in *. simpl in *.
      exists bs, ws, news. rewrite <- app_assoc in B. by split_and!. }
  rewrite (iteration_flush _ _ _ _ _ _ _ _ _ Hp Hd) in *.
  destruct (concat_diagonal (current_batch st ++ [df])) as [combined|e] eqn:Hc.
  2:{ simpl in *. exists bs, ws, news. rewrite <- app_assoc in B. by split_and!. }
  destruct (to_sql_ok w (length (statements (sink st)))); simpl in *.
  - exists ((current_batch st ++ [df]) :: bs), (combined :: ws),
      (ToSql t combined true :: news).
    split_and!.
    + simpl. by rewrite B, <- !app_assoc.
    + constructor; [|done]. split; [|done]. by destruct (current_batch st).
    + by rewrite Hst, <- app_assoc.
    + constructor; [by eexists _, _ | done].
    + simpl. by rewrite decide_True, W.
    + rewrite T. unfold table_rows. simpl. rewrite lookup_insert_eq. simpl.
      destruct ws; [by rewrite app_nil_r | by rewrite app_assoc].
    + intros t' Hne. rewrite (O t' Hne). by apply lookup_insert_ne.
  - exists bs, ws, (ToSql t combined false :: news).
    rewrite <- app_assoc in B. split_and!; [done | done | | | | done | done].
    + by rewrite Hst, <- app_assoc.
    + constructor; [by eexists _, _ | done].
    + done.
Qed.
End Loop.

(** ** Frames ready for the batch *)

Lemma vstack_shape (a b r : DataFrame) :
  vstack a b = Ok r → columns r = columns a ∧ (text_frame a → text_frame r).
Proof.
  revert b r. induction a as [|[c s] a IH]; intros [|[c' s'] b] r Hv;
    simpl in *; simplify_eq; [done|].
  destruct (decide (c = c')); [|done].
  destruct (append_series s s') as [s''|] eqn:Hs; simpl in *; [|done].
  destruct (vstack a b) as [r'|] eqn:E; simpl in *; simplify_eq.
  destruct (IH b r' E) as [I1 I2].
  destruct (append_series_ok _ _ _ Hs) as (_ & _ & Hd). split.
  - unfold columns in *. simpl. by f_equal.
  - intros [Hs' Ht]%Forall_cons. apply Forall_cons. split; [|by apply I2].
    simpl in *. congruence.
Qed.

Lemma vstack_all_succeeds (cols : list string) (rest : list DataFrame) (first : DataFrame) :
  columns first = cols → text_frame first →
  Forall (λ df, columns df = cols ∧ text_frame df) rest →
  ∃ w, vstack_all first rest = Ok w.
Proof.
  unfold vstack_all. revert first.
  induction rest as [|df rest IH]; intros first Hc Ht Hrest; simpl; [eauto|].
  apply Forall_cons in Hrest as [[Hc' Ht'] Hrest].
  destruct (vstack_text first df) as [r Hr]; [congruence | done..|].
  rewrite Hr. destruct (vstack_shape _ _ _ Hr) as [S1 S2].
  apply IH; [congruence | auto | done].
Qed.

Lemma concat_diagonal_succeeds (dfs : list DataFrame) :
  dfs ≠ [] → Forall text_frame dfs → ∃ w, concat_diagonal dfs = Ok w.
Proof.
  intros Hne Htext. unfold concat_diagonal.
  destruct (union_schema_spec dfs) as (_ & _ & Hts). specialize (Hts Htext).
  set (sch := union_schema dfs) in *. clearbody sch.
  destruct dfs as [|d ds]; [done|]. simpl.
  apply Forall_cons in Htext as [Hd Hds].
  apply (vstack_all_succeeds sch.*1).
  - apply align_columns.
  - by apply align_text.
  - rewrite Forall_fmap. eapply Forall_impl; [exact Hds|].
    intros df Hdf. simpl. split; [apply align_columns | by apply align_text].
Qed.

Lemma normalize_columns_frame_ok (sm : option (gmap string string)) (df df' : DataFrame) :
  normalize_columns sm df = Ok df' → frame_ok df → frame_ok df'.
Proof.
  unfold normalize_columns. intros H Hok.
  destruct sm as [m|]; [|by simplify_eq].
  destruct (dict_truthy m); [|by simplify_eq].
  destruct (dict_truthy _); [|by simplify_eq].
  by eapply rename_frame_ok.
Qed.

Lemma processed_text (w : World) (sm : option (gmap string string)) (p : string)
    (df : DataFrame) :
  processed w sm p = Ok df → text_frame df.
Proof.
  unfold processed. destruct (read_csv w p) as [raw|]; simpl; [|done].
  destruct (normalize_columns sm raw); simpl; [|done].
  intros ?; simplify_eq. apply cast_frame_text.
Qed.

Lemma processed_frame_ok (w : World) (sm : option (gmap string string)) (p : string)
    (df : DataFrame) :
  (∀ q raw, read_csv w q = Ok raw → frame_ok raw) →
  processed w sm p = Ok df → frame_ok df.
Proof.
  intros Hw. unfold processed. destruct (read_csv w p) as [raw|] eqn:Hr; simpl; [|done].
  destruct (normalize_columns sm raw) as [df'|] eqn:Hn; simpl; [|done].
  intros ?; simplify_eq. apply cast_frame_ok.
  eapply normalize_columns_frame_ok; eauto.
Qed.

Lemma frames_of_text (w : World) (sm : option (gmap string string)) (files : list string) :
  Forall text_frame (frames_of w sm files).
Proof.
  induction files as [|p files IH]; [constructor|].
  rewrite frames_of_cons. destruct (processed w sm p) eqn:Hp; [|done].
  constructor; [by eapply processed_text | done].
Qed.

(** ** A run in which every file and every write goes through *)

Lemma ceil_div_step (K r : nat) : 0 < K → (K + r + K - 1) / K = S ((r + K - 1) / K).
Proof.
  intros HK. replace (K + r + K - 1) with (1 * K + (r + K - 1)) by lia.
  rewrite Nat.div_add_l by lia. lia.
Qed.

Lemma ceil_div_one (K a : nat) : 0 < a → a ≤ K → (a + K - 1) / K = 1.
Proof.
  intros Ha HK. replace (a + K - 1) with (1 * K + (a - 1)) by lia.
  rewrite Nat.div_add_l by lia. rewrite Nat.div_small by lia. lia.
Qed.

Section AllOk.
Context (w : World) (K total : nat) (t : string) (sm : option (gmap string string)).
Hypothesis K_pos : 0 < K.
Hypothesis sink_up : ∀ n, to_sql_ok w n = true.

Lemma ingest_loop_all_ok (files : list string) (i : nat) (st : LoopState) :
  total = i + length files →
  Forall (λ p, is_ok (processed w sm p) = true) files →
  Forall text_frame (current_batch st) →
  length (current_batch st) < K →
  let st' := ingest_loop w K total t sm i files st in
  ∃ (batches : list (list DataFrame)) (ws : list DataFrame),
    (files ≠ [] → current_batch st ++ frames_of w sm files = concat batches)
    ∧ (files = [] → batches = [])
    ∧ length (frames_of w sm files) = length files
    ∧ Forall2 (λ b wdf, concat_diagonal b = Ok wdf) batches ws
    ∧ statements (sink st')
      = statements (sink st) ++ ((λ wdf, ToSql t wdf true) <$> ws)
    ∧ (files ≠ [] →
       length batches = (length (current_batch st) + length files + K - 1) / K)
    ∧ (∀ j b, batches !! j = Some b →
         0 < length b ≤ K ∧ (S j < length batches → length b = K)).
Proof.
  revert i st. induction files as [|p files IH]; intros i st Ht Hok Hb Hlen;
    cbn [ingest_loop].
  { exists [], []. simpl. split_and!; rewrite ?app_nil_r; by try constructor. }
  apply Forall_cons in Hok as [Hp Hok].
  destruct (processed w sm p) as [df|] eqn:Hdf; [clear Hp | done].
  rewrite frames_of_cons, Hdf.
  assert (Forall text_frame (current_batch st ++ [df])) as Hb'.
  { apply Forall_app. split; [done|]. apply Forall_singleton. by eapply processed_text. }
  destruct (flush_due K total i (length (current_batch st ++ [df]))) eqn:Hd.
  - rewrite (iteration_flush _ _ _ _ _ _ _ _ _ Hdf Hd).
    destruct (concat_diagonal_succeeds (current_batch st ++ [df])) as [combined Hc];
      [by destruct (current_batch st) | done |].
    rewrite Hc, sink_up.
    set (st1 := {| current_batch := [] |}).
    destruct (IH (S i) st1) as (bs & ws & B & E & L & C & Hst & N & Sh);
      [simpl in *; lia | done | constructor | simpl; lia |].
    exists ((current_batch st ++ [df]) :: bs), (combined :: ws).
    assert (length (current_batch st ++ [df]) ≤ K) as Hle.
    { rewrite length_app. simpl. lia. }
    assert (files ≠ [] → length (current_batch st ++ [df]) = K) as Hfull.
    { intros Hne. unfold flush_due in Hd. apply orb_true_iff in Hd as [Hd|Hd].
      - apply Nat.leb_le in Hd. lia.
      - apply Nat.eqb_eq in Hd. destruct files; [done|]. simpl in *. lia. }
    split_and!.
    + intros _. simpl. destruct files as [|q files].
      * rewrite (E eq_refl). simpl. by rewrite app_nil_r.
      * rewrite <- B by done. simpl. by rewrite <- app_assoc.
    + done.
    + simpl. by rewrite L.
    + by constructor.
    + rewrite Hst. simpl. by rewrite <- app_assoc.
    + intros _. simpl. destruct files as [|q files].
      * rewrite (E eq_refl). simpl. rewrite length_app in Hle. simpl in *.
        rewrite ceil_div_one; lia.
      * rewrite N by done. simpl (length (current_batch st1)).
        rewrite length_app in Hfull. simpl in Hfull.
        specialize (Hfull ltac:(done)).
        replace (length (current_batch st) + S (length (q :: files)) + K - 1)
          with (K + length (q :: files) + K - 1) by (simpl in *; lia).
        by rewrite ceil_div_step.
    + intros [|j] b Hj; simpl in *.
      * simplify_eq. split; [rewrite length_app in *; simpl in *; lia|].
        intros Hlt. apply Hfull. intros ->. rewrite (E eq_refl) in Hlt. simpl in Hlt. lia.
      * destruct (Sh j b Hj) as [S1 S2]. split; [done|]. intros ?. apply S2. lia.
  - rewrite (iteration_append _ _ _ _ _ _ _ _ _ Hdf Hd).
    set (st1 := {| current_batch := current_batch st ++ [df] |}).
    assert (length (current_batch st ++ [df]) < K ∧ files ≠ []) as [Hlt Hne].
    { unfold flush_due in Hd. apply orb_false_iff in Hd as [Hd1 Hd2].
      apply Nat.leb_gt in Hd1. apply Nat.eqb_neq in Hd2.
      split; [done|]. intros ->. simpl in *. lia. }
    destruct (IH (S i) st1) as (bs & ws & B & E & L & C & Hst & N & Sh);
      [simpl in *; lia | done | done | done |].
    exists bs, ws. split_and!.
    + intros _. rewrite <- B by done. simpl. by rewrite <- app_assoc.
    + done.
    + simpl. by rewrite L.
    + done.
    + by rewrite Hst.
    + intros _. rewrite N by done. simpl. rewrite length_app. simpl.
      f_equal. lia.
    + done.
Qed.
End AllOk.

(** ** Claims about the normalizer and the cast *)

Lemma dict_truthy_false (d : gmap string string) : dict_truthy d = false → d = ∅.
Proof.
  unfold dict_truthy. intros H. apply negb_false_iff, Nat.eqb_eq in H.
  by apply map_size_empty_iff.
Qed.

Lemma rename_target_empty (c : string) : rename_target ∅ c = c.
Proof. unfold rename_target. by rewrite lookup_empty. Qed.

Lemma rename_plan_target (R : option (gmap string string)) (C : list string) (c : string) :
  c ∈ C →
  rename_target (rename_plan R C) c
  = match R with Some m => default c (m !! c) | None => c end.
Proof.
  intros Hc. destruct R as [m|]; simpl.
  - by apply rename_target_build.
  - apply rename_target_empty.
Qed.

Lemma normalize_columns_plan (R : option (gmap string string)) (df : DataFrame) :
  normalize_columns R df = rename df (rename_plan R (columns df))
  ∨ (normalize_columns R df = Ok df ∧ rename_plan R (columns df) = ∅).
Proof.
  unfold normalize_columns, rename_plan. destruct R as [m|]; [|by right].
  destruct (dict_truthy m) eqn:Hm.
  - destruct (dict_truthy (build_rename_dict m (columns df))) eqn:Hd; [by left|].
    right. split; [done | by apply dict_truthy_false].
  - right. split; [done|]. apply dict_truthy_false in Hm as ->.
    apply map_eq. intros c. rewrite build_rename_dict_lookup, lookup_empty.
    by case_decide.
Qed.

Lemma normalize_columns_names (R : option (gmap string string)) (df df' : DataFrame) :
  normalize_columns R df = Ok df' →
  columns df' = rename_target (rename_plan R (columns df)) <$> columns df.
Proof.
  intros H. destruct (normalize_columns_plan R df) as [E|[E P]]; rewrite E in H.
  - by apply rename_columns.
  - simplify_eq. rewrite P. symmetry. etrans; [|apply list_fmap_id].
    apply list_fmap_ext. intros _ c _. apply rename_target_empty.
Qed.

(** C3. For every rename table [R] (or none) and every frame, the rename
    plan sends each column of the frame to one name: the table's value
    when the column is a key of [R], the column itself otherwise, and
    always itself when there is no table.  When the plan applies, the
    renamed frame has one column per input column, in the same position,
    under that name. *)
Theorem normalize_maps_each_column
    (R : option (gmap string string)) (df : DataFrame) (c : string) :
  c ∈ columns df →
  let out := rename_target (rename_plan R (columns df)) in
  (∀ m v, R = Some m → m !! c = Some v → out c = v)
  ∧ (∀ m, R = Some m → m !! c = None → out c = c)
  ∧ (R = None → out c = c)
  ∧ (∀ df', normalize_columns R df = Ok df' →
       length (columns df') = length (columns df)
       ∧ ∀ i a, columns df !! i = Some a →
                columns df' !! i
                = Some (match R with Some m => default a (m !! a) | None => a end)).
Proof.
  intros Hc out. subst out. rewrite (rename_plan_target R _ c Hc). split_and!.
  - intros m v -> Hv. by rewrite Hv.
  - intros m -> Hv. by rewrite Hv.
  - by intros ->.
  - intros df' Hn. rewrite (normalize_columns_names _ _ _ Hn). split.
    + by rewrite length_fmap.
    + intros i a Ha. rewrite list_lookup_fmap, Ha. simpl. f_equal.
      apply rename_plan_target. by eapply list_elem_of_lookup_2.
Qed.

Lemma cast_frame_get_column (df : DataFrame) (c : string) :
  get_column (select_all_cast_utf8 df) c = cast_utf8 <$> get_column df c.
Proof.
  induction df as [|[c' x] df IH]; simpl; [done|].
  destruct (decide (c' = c)); [done | apply IH].
Qed.

Lemma cast_frame_idempotent (df : DataFrame) :
  select_all_cast_utf8 (select_all_cast_utf8 df) = select_all_cast_utf8 df.
Proof.
  unfold select_all_cast_utf8. rewrite <- list_fmap_compose.
  apply list_fmap_ext. intros _ [c x] _. simpl. f_equal.
  apply cast_utf8_text, cast_utf8_dtype.
Qed.

Lemma cast_frame_of_text (df : DataFrame) :
  text_frame df → select_all_cast_utf8 df = df.
Proof.
  intros Ht. unfold select_all_cast_utf8. etrans; [|apply list_fmap_id].
  apply Forall_fmap_ext_1. eapply Forall_impl; [exact Ht|].
  intros [c x] Hx. simpl in *. by rewrite cast_utf8_text.
Qed.

(** C6. The cast to text is total and idempotent.  Of a series: every
    series of any dtype becomes a text series of the same length, entry
    by entry; a text series is returned as it is, casting twice is casting
    once, and a null entry stays null: the cast never turns it into a
    string.  Of the frame the loop casts (source line 120): the cast
    frame has the columns of the frame in their order, each column the
    cast of the frame's column, the same height, and as rows the frame's
    rows cast cell by cell; it holds text only; casting it again, or
    casting a frame that held text already, changes nothing.  In the loop
    the cast never raises: a file that was read and renamed is put in the
    batch as its cast frame, and a file is skipped only because the read
    or the renaming raised. *)
Theorem cast_total_idempotent (s : Series) :
  dtype (cast_utf8 s) = TUtf8
  ∧ series_len (cast_utf8 s) = series_len s
  ∧ cast_utf8 (cast_utf8 s) = cast_utf8 s
  ∧ (dtype s = TUtf8 → cast_utf8 s = s)
  ∧ values (cast_utf8 s) = fmap (M:=option) (CStr ∘ cast_cell) <$> values s
  ∧ (∀ i, values s !! i = Some None ↔ values (cast_utf8 s) !! i = Some None)
  ∧ (∀ i x, values s !! i = Some (Some (CStr x)) →
            values (cast_utf8 s) !! i = Some (Some (CStr x)))
  ∧ (∀ df : DataFrame,
       select_all_cast_utf8 (select_all_cast_utf8 df) = select_all_cast_utf8 df
       ∧ columns (select_all_cast_utf8 df) = columns df
       ∧ text_frame (select_all_cast_utf8 df)
       ∧ height (select_all_cast_utf8 df) = height df
       ∧ (∀ c, get_column (select_all_cast_utf8 df) c = cast_utf8 <$> get_column df c)
       ∧ rows_of (select_all_cast_utf8 df) = fmap (M:=list) cast_row (rows_of df)
       ∧ (text_frame df → select_all_cast_utf8 df = df))
  ∧ (∀ (w : World) sm p raw raw',
       read_csv w p = Ok raw → normalize_columns sm raw = Ok raw' →
       processed w sm p = Ok (select_all_cast_utf8 raw'))
  ∧ (∀ (w : World) sm p e,
       processed w sm p = Err e →
       read_csv w p = Err e
       ∨ ∃ raw, read_csv w p = Ok raw ∧ normalize_columns sm raw = Err e)
  ∧ (∀ (w : World) K total t sm i p (st : LoopState) raw raw',
       read_csv w p = Ok raw → normalize_columns sm raw = Ok raw' →
       let batch := current_batch st ++ [select_all_cast_utf8 raw'] in
       let st' := iteration w K total t sm i p st in
       (current_batch st' = batch ∧ tables (sink st') = tables (sink st))
       ∨ (current_batch st' = []
          ∧ ∃ combined, concat_diagonal batch = Ok combined
                        ∧ sink st' = append_rows t combined (sink st))).
Proof.
  split_and!.
  - apply cast_utf8_dtype.
  - apply cast_utf8_len.
  - apply cast_utf8_text, cast_utf8_dtype.
  - apply cast_utf8_text.
  - apply cast_utf8_values.
  - intros i. rewrite cast_utf8_values, list_lookup_fmap.
    destruct (values s !! i) as [[v|]|]; simpl; naive_solver.
  - intros i x H. by rewrite cast_utf8_values, list_lookup_fmap, H.
  - intros df. split_and!.
    + apply cast_frame_idempotent.
    + apply cast_frame_columns.
    + apply cast_frame_text.
    + apply cast_frame_height.
    + apply cast_frame_get_column.
    + apply cast_frame_rows.
    + apply cast_frame_of_text.
  - intros w sm p raw raw' Hr Hn. unfold processed. by rewrite Hr; simpl; rewrite Hn.
  - intros w sm p e. unfold processed.
    destruct (read_csv w p) as [raw|e'] eqn:Hr; simpl; [|intros [= ->]; by left].
    destruct (normalize_columns sm raw) as [raw'|e'] eqn:Hn; simpl; [done|].
    intros [= ->]. right. by exists raw.
  - intros w K total t sm i p st raw raw' Hr Hn batch st'. subst batch st'.
    assert (processed w sm p = Ok (select_all_cast_utf8 raw')) as Hp.
    { unfold processed. by rewrite Hr; simpl; rewrite Hn. }
    destruct (flush_due K total i
                (length (current_batch st ++ [select_all_cast_utf8 raw']))) eqn:Hd.
    + rewrite (iteration_flush _ _ _ _ _ _ _ _ _ Hp Hd).
      destruct (concat_diagonal _) as [combined|e]; [|by left].
      destruct (to_sql_ok w _); [|by left].
      right. split; [done|]. by exists combined.
    + rewrite (iteration_append _ _ _ _ _ _ _ _ _ Hp Hd). by left.
Qed.

Lemma normalize_columns_decide (sm : option (gmap string string)) (raw : DataFrame) :
  frame_ok raw →
  let plan := rename_plan sm (columns raw) in
  normalize_columns sm raw
  = if decide (NoDup (rename_target plan <$> columns raw))
    then Ok ((λ cs, (rename_target plan cs.1, cs.2)) <$> raw)
    else Err DuplicateError.
Proof.
  intros [Hnd _] plan. subst plan.
  assert (∀ d : gmap string string,
            columns ((λ cs : string * Series, (rename_target d cs.1, cs.2)) <$> raw)
            = rename_target d <$> columns raw) as Hcols.
  { intros d. unfold columns. rewrite <- !list_fmap_compose. by apply list_fmap_ext. }
  destruct (normalize_columns_plan sm raw) as [E|[E P]]; rewrite E.
  - unfold rename. rewrite Hcols. by repeat case_decide.
  - rewrite P.
    assert (rename_target ∅ <$> columns raw = columns raw) as Hid.
    { etrans; [|apply list_fmap_id]. apply list_fmap_ext. intros _ c _.
      apply rename_target_empty. }
    rewrite Hid, decide_True by done. f_equal. symmetry.
    etrans; [|apply list_fmap_id]. apply list_fmap_ext. intros _ [c x] _.
    simpl. by rewrite rename_target_empty.
Qed.

(** C7, as the code has it.  Applying the rename plan succeeds exactly when
    the output names are pairwise distinct, and then every column keeps its
    entries under its new name.  When two columns would end up under one
    name the renaming raises [DuplicateError]: the handler logs the error
    against the file, and the file adds nothing to the batch or the sink.
    Either way the outcome is a function of the frame and the table. *)
Theorem rename_collision_skips_file
    (w : World) (K total : nat) (t : string) (sm : option (gmap string string))
    (i : nat) (p : string) (st : LoopState) (raw : DataFrame) :
  read_csv w p = Ok raw →
  frame_ok raw →
  let plan := rename_plan sm (columns raw) in
  let targets := rename_target plan <$> columns raw in
  (NoDup targets →
     normalize_columns sm raw = Ok ((λ cs, (rename_target plan cs.1, cs.2)) <$> raw))
  ∧ (¬ NoDup targets →
       normalize_columns sm raw = Err DuplicateError
       ∧ iteration w K total t sm i p st
         = {| current_batch := current_batch st; sink := sink st;
              console := console st ++ [ErrorProcessing p DuplicateError] |}).
Proof.
  intros Hr Hok plan targets. subst plan targets.
  pose proof (normalize_columns_decide sm raw Hok) as Hn. simpl in Hn.
  split; intros Hnd.
  - by rewrite Hn, decide_True.
  - rewrite decide_False in Hn by done. split; [done|].
    apply iteration_skip. unfold processed. by rewrite Hr; simpl; rewrite Hn.
Qed.

(** ** Claims about the reconciled wide frame *)

Lemma length_bind_rows (f : DataFrame → list row) (dfs : list DataFrame) :
  length (dfs ≫= f) = sum_list ((λ df, length (f df)) <$> dfs).
Proof.
  induction dfs as [|df dfs IH]; simpl; [done|].
  rewrite length_app. f_equal. exact IH.
Qed.

Lemma row_get_reconcile (cols : list string) (r : row) (c : string) :
  c ∈ cols → row_get (reconcile_row cols r) c = Some (default None (row_get r c)).
Proof.
  unfold reconcile_row. induction cols as [|c' cols IH]; simpl.
  - by intros ?%elem_of_nil.
  - intros Hc. destruct (decide (c' = c)) as [->|Hne]; [done|].
    apply IH. by apply elem_of_cons in Hc as [->|Hc].
Qed.

(** C4. For every non-empty batch of record sets (text frames as Polars
    builds them), the diagonal concatenation succeeds; the columns of the
    wide frame are exactly the columns that occur in some frame of the
    batch, each once; its rows are the rows of the frames, frame after
    frame, none dropped; and every row has an entry for every column of
    the union: the entry of the source row where the source frame has the
    column, the null marker where it does not. *)
Theorem reconciled_wide_record_set (batch : list DataFrame) :
  batch ≠ [] → Forall frame_ok batch → Forall text_frame batch →
  ∃ wide,
    concat_diagonal batch = Ok wide
    ∧ NoDup (columns wide)
    ∧ (∀ c, c ∈ columns wide ↔ ∃ df, df ∈ batch ∧ c ∈ columns df)
    ∧ rows_of wide
      = batch ≫= (λ df, fmap (M:=list) (reconcile_row (columns wide)) (rows_of df))
    ∧ height wide = sum_list (height <$> batch)
    ∧ (∀ df r c, df ∈ batch → r ∈ rows_of df → c ∈ columns wide →
         (reconcile_row (columns wide) r).*1 = columns wide
         ∧ (c ∈ columns df →
              ∃ v, row_get r c = Some v
                   ∧ row_get (reconcile_row (columns wide) r) c = Some v)
         ∧ (c ∉ columns df →
              row_get (reconcile_row (columns wide) r) c = Some None)).
Proof.
  intros Hne Hok Htext.
  destruct (concat_diagonal_text batch Hne Hok Htext) as (wide & Hc & C & T & [Hnd U] & R).
  destruct (union_schema_spec batch) as (_ & Hin & _).
  exists wide. split_and!; [done | done | by intros c; rewrite C | done | |].
  - rewrite <- length_rows_of, R, length_bind_rows. f_equal.
    apply list_fmap_ext. intros _ df _. by rewrite length_fmap, length_rows_of.
  - intros df r c Hdf Hr Hcw. split_and!.
    + unfold reconcile_row. rewrite <- list_fmap_compose.
      etrans; [|apply list_fmap_id]. by apply list_fmap_ext.
    + intros Hcd. rewrite row_get_reconcile by done.
      unfold rows_of in Hr. apply list_elem_of_fmap in Hr as (i & -> & _).
      rewrite row_get_row_at.
      destruct (get_column df c) as [x|] eqn:Hx; simpl; [eauto|].
      by apply get_column_None in Hx.
    + intros Hcd. rewrite row_get_reconcile by done.
      unfold rows_of in Hr. apply list_elem_of_fmap in Hr as (i & -> & _).
      rewrite row_get_row_at. apply get_column_None in Hcd. by rewrite Hcd.
Qed.

(** ** Claims about a run *)

Lemma rename_row_empty (r : row) : rename_row ∅ r = r.
Proof.
  unfold rename_row. etrans; [|apply list_fmap_id].
  apply list_fmap_ext. intros _ [c v] _. simpl. by rewrite rename_target_empty.
Qed.

Lemma processed_rows (w : World) (sm : option (gmap string string)) (p : string)
    (raw df : DataFrame) :
  read_csv w p = Ok raw → processed w sm p = Ok df →
  rows_of df
  = fmap (M:=list) (λ r, cast_row (rename_row (rename_plan sm (columns raw)) r))
      (rows_of raw).
Proof.
  intros Hr. unfold processed. rewrite Hr. simpl.
  destruct (normalize_columns sm raw) as [df'|] eqn:Hn; simpl; [|done].
  intros ?; simplify_eq. rewrite cast_frame_rows.
  destruct (normalize_columns_plan sm raw) as [E|[E P]]; rewrite E in Hn.
  - rewrite (rename_rows _ _ _ Hn), <- list_fmap_compose. done.
  - simplify_eq. rewrite P. apply list_fmap_ext. intros _ r _.
    by rewrite rename_row_empty.
Qed.

Lemma frames_of_frame_ok (w : World) (sm : option (gmap string string))
    (files : list string) :
  (∀ q raw, read_csv w q = Ok raw → frame_ok raw) →
  Forall frame_ok (frames_of w sm files).
Proof.
  intros Hw. induction files as [|p files IH]; [constructor|].
  rewrite frames_of_cons. destruct (processed w sm p) eqn:Hp; [|done].
  constructor; [by eapply processed_frame_ok | done].
Qed.

(** C1. In a run of [N] files that all turn into record sets, against a
    sink that takes every write, with batch size [K > 0] (500 in
    [ingest_files]): the record sets are written in consecutive batches
    that cover all of them; every batch but the last holds exactly [K]
    record sets and the last holds the remainder, between 1 and [K]; so a
    flush happens exactly at every [K]-th file and at the last file, and
    the sink receives [ceil(N/K)] writes. *)
Theorem flush_at_batch_size_or_last_file
    (w : World) (K : nat) (file_pattern t : string)
    (sm : option (gmap string string)) (s : Sink) (out : list output) :
  0 < K →
  (∀ n, to_sql_ok w n = true) →
  Forall (λ p, is_ok (processed w sm p) = true) (glob w file_pattern) →
  let N := length (glob w file_pattern) in
  ∃ (batches : list (list DataFrame)) (ws : list DataFrame),
    statements (ingest_files_with w K file_pattern t sm s out).1
    = statements s ++ ((λ wdf, ToSql t wdf true) <$> ws)
    ∧ Forall2 (λ b wdf, concat_diagonal b = Ok wdf) batches ws
    ∧ concat batches = frames_of w sm (glob w file_pattern)
    ∧ length (concat batches) = N
    ∧ length ws = (N + K - 1) / K
    ∧ (∀ j b, batches !! j = Some b →
         0 < length b ≤ K ∧ (S j < length batches → length b = K)).
Proof.
  intros HK Hup Hok N. subst N. unfold ingest_files_with, ingest_run. simpl.
  set (files := glob w file_pattern) in *.
  set (st0 := {| current_batch := [] |}).
  destruct (ingest_loop_all_ok w K (length files) t sm HK Hup files 0 st0)
    as (bs & ws & B & E & L & C & Hst & N & Sh); [done | done | constructor | done |].
  exists bs, ws. simpl in *.
  assert (concat bs = frames_of w sm files) as Hcat.
  { destruct files as [|p files']; [by rewrite (E eq_refl) | by rewrite B]. }
  split_and!; [done | done | done | by rewrite Hcat | | done].
  rewrite <- (Forall2_length _ _ _ C).
  destruct files as [|p files']; [|by rewrite N].
  rewrite (E eq_refl). simpl. by rewrite Nat.div_small by lia.
Qed.

(** C10. Whatever happens in a run, the frames its files turn into, in the
    order of the enumeration, are the batches the run committed, one after
    the other, followed by the batch it ended with; the rows appended to
    the table are the rows of the committed frames in that order; the rows
    of a committed frame are the rows of its batch's frames, frame after
    frame, each reconciled to the union columns; and the rows of a frame
    are the rows of the file's frame in their order, each renamed and
    cast. *)
Theorem flush_preserves_row_order
    (w : World) (K : nat) (file_pattern t : string)
    (sm : option (gmap string string)) (s : Sink) (out : list output) :
  (∀ q raw, read_csv w q = Ok raw → frame_ok raw) →
  let st' := ingest_run w K file_pattern t sm s out in
  ∃ (batches : list (list DataFrame)) (ws : list DataFrame) (news : list statement),
    frames_of w sm (glob w file_pattern) = concat batches ++ current_batch st'
    ∧ statements (sink st') = statements s ++ news
    ∧ committed t news = ws
    ∧ table_rows (sink st') t = table_rows s t ++ (ws ≫= rows_of)
    ∧ Forall2 (λ b wdf,
                 concat_diagonal b = Ok wdf
                 ∧ rows_of wdf
                   = b ≫= (λ df, fmap (M:=list) (reconcile_row (columns wdf))
                                   (rows_of df)))
        batches ws
    ∧ (∀ p raw df, read_csv w p = Ok raw → processed w sm p = Ok df →
         rows_of df
         = fmap (M:=list)
             (λ r, cast_row (rename_row (rename_plan sm (columns raw)) r))
             (rows_of raw)).
Proof.
  intros Hw st'. subst st'. unfold ingest_run.
  set (files := glob w file_pattern).
  set (st0 := {| current_batch := [] |}).
  destruct (ingest_loop_invariant w K (length files) t sm files 0 st0)
    as (bs & ws & news & B & C & Hst & N & W & T & O).
  exists bs, ws, news. simpl in *.
  split_and!; [done | done | done | | | by apply processed_rows].
  - unfold table_rows at 1. rewrite T. destruct ws; [|done].
    simpl. by rewrite app_nil_r.
  - assert (Forall (Forall (λ df, frame_ok df ∧ text_frame df)) bs) as Hbs.
    { pose proof (frames_of_frame_ok w sm files Hw) as H1.
      pose proof (frames_of_text w sm files) as H2.
      rewrite B in H1, H2.
      apply Forall_app in H1 as [H1 _]. apply Forall_app in H2 as [H2 _].
      clear -H1 H2. induction bs as [|b bs IH]; [constructor|].
      simpl in *. apply Forall_app in H1 as [H1 H1']. apply Forall_app in H2 as [H2 H2'].
      constructor; [|by apply IH].
      apply Forall_forall. intros df Hdf. rewrite Forall_forall in H1.
      rewrite Forall_forall in H2. auto. }
    clear -C Hbs. induction C as [|b wdf bs ws [Hne Hc] C IH]; [constructor|].
    apply Forall_cons in Hbs as [Hb Hbs]. constructor; [|by apply IH].
    split; [done|].
    destruct (concat_diagonal_text b) as (w' & Hw' & _ & _ & _ & R); [done | | |].
    + eapply Forall_impl; [exact Hb|]. by intros ? [? ?].
    + eapply Forall_impl; [exact Hb|]. by intros ? [? ?].
    + by assert (w' = wdf) as -> by congruence.
Qed.

(** ** Claims about a write that does not go through *)

Lemma attempted_app (t : string) (l1 l2 : list statement) :
  attempted t (l1 ++ l2) = attempted t l1 ++ attempted t l2.
Proof. unfold attempted. apply omap_app. Qed.

Lemma next_flush_attempt (w : World) (K total : nat) (t : string)
    (sm : option (gmap string string)) (files : list string) (i : nat)
    (st : LoopState) :
  let st' := ingest_loop w K total t sm i files st in
  ∃ news,
    statements (sink st') = statements (sink st) ++ news
    ∧ match attempted t news with
      | [] => current_batch st' = current_batch st ++ frames_of w sm files
      | next :: _ =>
          ∃ more, more ≠ [] ∧ more `prefix_of` frames_of w sm files
                  ∧ concat_diagonal (current_batch st ++ more) = Ok next
      end.
Proof.
  revert i st. induction files as [|p files IH]; intros i st; cbn [ingest_loop].
  { exists []. simpl. by rewrite !app_nil_r. }
  rewrite frames_of_cons.
  destruct (IH (S i) (iteration w K total t sm i p st)) as (news & Hst & A).
  destruct (processed w sm p) as [df|e] eqn:Hp.
  2:{ rewrite (iteration_skip _ _ _ _ _ _ _ _ _ Hp) in *. simpl in *.
      by exists news. }
  assert (∀ st1 : LoopState,
            current_batch st1 = current_batch st ++ [df] →
            match attempted t news with
            | [] => current_batch (ingest_loop w K total t sm (S i) files st1)
                    = current_batch st1 ++ frames_of w sm files
            | next :: _ =>
                ∃ more, more ≠ [] ∧ more `prefix_of` frames_of w sm files
                        ∧ concat_diagonal (current_batch st1 ++ more) = Ok next
            end →
            match attempted t news with
            | [] => current_batch (ingest_loop w K total t sm (S i) files st1)
                    = current_batch st ++ df :: frames_of w sm files
            | next :: _ =>
                ∃ more, more ≠ [] ∧ more `prefix_of` (df :: frames_of w sm files)
                        ∧ concat_diagonal (current_batch st ++ more) = Ok next
            end) as Hgrow.
  { intros st1 Hb H. destruct (attempted t news) as [|next rest].
    - by rewrite H, Hb, <- app_assoc.
    - destruct H as (more & _ & Hpre & Hc). exists (df :: more).
      split_and!; [done | by apply prefix_cons |].
      by rewrite Hb, <- app_assoc in Hc. }
  destruct (flush_due K total i (length (current_batch st ++ [df]))) eqn:Hd.
  2:{ rewrite (iteration_append _ _ _ _ _ _ _ _ _ Hp Hd) in *. simpl in *.
      exists news. split; [done|]. by eapply Hgrow. }
  rewrite (iteration_flush _ _ _ _ _ _ _ _ _ Hp Hd) in *.
  destruct (concat_diagonal (current_batch st ++ [df])) as [combined|e] eqn:Hc.
  2:{ simpl in *. exists news. split; [done|]. by eapply Hgrow. }
  assert ([df] `prefix_of` df :: frames_of w sm files) as Hpre.
  { by apply prefix_cons, prefix_nil. }
  destruct (to_sql_ok w (length (statements (sink st)))); simpl in *.
  - exists (ToSql t combined true :: news). rewrite Hst, <- app_assoc.
    split; [done|]. simpl. rewrite decide_True by done. by exists [df].
  - exists (ToSql t combined false :: news). rewrite Hst, <- app_assoc.
    split; [done|]. simpl. rewrite decide_True by done. by exists [df].
Qed.

Section FailedWrite.
Context (w : World) (K total : nat) (t : string) (sm : option (gmap string string)).
Context (i : nat) (p : string) (st : LoopState) (df combined : DataFrame).
Hypothesis Hprocessed : processed w sm p = Ok df.
Hypothesis Hdue : flush_due K total i (length (current_batch st ++ [df])) = true.
Hypothesis Hconcat : concat_diagonal (current_batch st ++ [df]) = Ok combined.
Hypothesis Hdown : to_sql_ok w (length (statements (sink st))) = false.

Lemma iteration_failed_write :
  iteration w K total t sm i p st
  = {| current_batch := current_batch st ++ [df];
       sink := reject_rows t combined (sink st);
       console := console st ++ [ErrorProcessing p OperationalError] |}.
Proof. by rewrite (iteration_flush _ _ _ _ _ _ _ _ _ Hprocessed Hdue), Hconcat, Hdown. Qed.

(** C9. When the write of a flush raises, the batch is not cleared: all the
    record sets gathered before the write, the current file's included,
    are still in the batch; and whatever files follow, either no write is
    tried again and the batch ends as the kept record sets followed by the
    later ones, or the next write tried is the concatenation of the kept
    record sets followed by the ones appended since. *)
Theorem failed_write_keeps_batch (files : list string) :
  let st1 := iteration w K total t sm i p st in
  let st' := ingest_loop w K total t sm (S i) files st1 in
  current_batch st1 = current_batch st ++ [df]
  ∧ ∃ news,
      statements (sink st') = statements (sink st1) ++ news
      ∧ match attempted t news with
        | [] => current_batch st'
                = (current_batch st ++ [df]) ++ frames_of w sm files
        | next :: _ =>
            ∃ more, more ≠ [] ∧ more `prefix_of` frames_of w sm files
                    ∧ concat_diagonal ((current_batch st ++ [df]) ++ more) = Ok next
        end.
Proof.
  intros st1 st'. subst st1 st'. rewrite iteration_failed_write. split; [done|].
  set (st1 := {| current_batch := current_batch st ++ [df] |}).
  exact (next_flush_attempt w K total t sm files (S i) st1).
Qed.

(** C2, as the code has it.  When the write of a flush raises, the handler
    of the loop catches the exception like any other: the error is printed
    against the file being processed, the batch is kept, the sink's tables
    are as they were, and the loop goes on with the next file.  Whatever
    files follow, the rows committed to the table before the failure stay:
    the table only grows, and no other table changes. *)
Theorem failed_write_is_logged_and_run_continues (files : list string) :
  let st1 := iteration w K total t sm i p st in
  let st' := ingest_loop w K total t sm i (p :: files) st in
  st1 = {| current_batch := current_batch st ++ [df];
           sink := reject_rows t combined (sink st);
           console := console st ++ [ErrorProcessing p OperationalError] |}
  ∧ tables (sink st1) = tables (sink st)
  ∧ st' = ingest_loop w K total t sm (S i) files st1
  ∧ (∃ more, table_rows (sink st') t = table_rows (sink st) t ++ more)
  ∧ (∀ t', t' ≠ t → tables (sink st') !! t' = tables (sink st) !! t').
Proof.
  intros st1 st'. subst st1 st'. cbn [ingest_loop]. rewrite iteration_failed_write.
  split_and!; [done | done | done | |].
  - set (st1 := {| current_batch := current_batch st ++ [df] |}).
    destruct (ingest_loop_invariant w K total t sm files (S i) st1)
      as (bs & ws & news & _ & _ & _ & _ & _ & T & _).
    exists (ws ≫= rows_of). unfold table_rows at 1. rewrite T.
    destruct ws; [by rewrite app_nil_r | done].
  - set (st1 := {| current_batch := current_batch st ++ [df] |}).
    destruct (ingest_loop_invariant w K total t sm files (S i) st1)
      as (bs & ws & news & _ & _ & _ & _ & _ & _ & O).
    exact O.
Qed.
End FailedWrite.

(** ** Claims about [main] *)

Lemma ingest_files_spec (w : World) (pattern t : string)
    (sm : option (gmap string string)) (s : Sink) (out : list output) :
  ∃ news,
    statements (ingest_files w pattern t sm s out).1 = statements s ++ news
    ∧ Forall (is_write_to t) news
    ∧ tables (ingest_files w pattern t sm s out).1 !! t
      = match committed t news with
        | [] => tables s !! t
        | ws => Some (table_rows s t ++ (ws ≫= rows_of))
        end
    ∧ (∀ t', t' ≠ t →
         tables (ingest_files w pattern t sm s out).1 !! t' = tables s !! t').
Proof.
  unfold ingest_files, ingest_files_with, ingest_run. simpl.
  set (files := glob w pattern).
  set (st0 := {| current_batch := [] |}).
  destruct (ingest_loop_invariant w batch_size (length files) t sm files 0 st0)
    as (bs & ws & news & _ & _ & Hst & N & W & T & O).
  exists news. rewrite W. split_and!; [done | done | | done].
  rewrite T. by destruct ws.
Qed.

Lemma committed_other (t t' : string) (news : list statement) :
  t' ≠ t → Forall (is_write_to t') news → committed t news = [].
Proof.
  intros Hne. induction 1 as [|x l (df & ok & ->) _ IH]; [done|].
  simpl. destruct ok; [by rewrite decide_False|]; done.
Qed.

Lemma reset_tables_cases (w : World) (s : Sink) :
  ((∀ k, k < 4 → reset_ok w k = true)
   ∧ reset_tables w s
     = Ok (drop_table_if_exists "raw_inventory" (drop_table_if_exists "raw_sales" s)))
  ∨ ((∃ k, k < 4 ∧ reset_ok w k = false)
     ∧ reset_tables w s = Err OperationalError).
Proof.
  unfold reset_tables, execute_drop, reset_step.
  destruct (reset_ok w 0) eqn:H0; simpl; [|right; split; [exists 0; split; [lia|done] | done]].
  destruct (reset_ok w 1) eqn:H1; simpl; [|right; split; [exists 1; split; [lia|done] | done]].
  destruct (reset_ok w 2) eqn:H2; simpl; [|right; split; [exists 2; split; [lia|done] | done]].
  destruct (reset_ok w 3) eqn:H3; simpl; [|right; split; [exists 3; split; [lia|done] | done]].
  left. split; [|done]. intros k Hk.
  destruct k as [|[|[|[|k]]]]; [done..|lia].
Qed.

Lemma main_raises (w : World) (s : Sink) :
  (∃ k, k < 4 ∧ reset_ok w k = false) →
  main w s = (s, [Starting; Uncaught OperationalError]).
Proof.
  intros (k & Hk & Hf). unfold main.
  destruct (reset_tables_cases w s) as [[Hok _]|[_ ->]]; [|done].
  rewrite (Hok k Hk) in Hf. done.
Qed.

Lemma main_sink (w : World) (s : Sink) :
  (∀ k, k < 4 → reset_ok w k = true) →
  ∃ out1 out2,
    (main w s).1
    = (ingest_files w (INVENTORY_DIR w +:+ "/*.csv") "raw_inventory" None
         (ingest_files w (SALES_DIR w +:+ "/*.csv") "raw_sales"
            (Some SALES_SCHEMA_MAP)
            (drop_table_if_exists "raw_inventory"
               (drop_table_if_exists "raw_sales" s)) out1).1 out2).1.
Proof.
  intros Hok. unfold main.
  destruct (reset_tables_cases w s) as [[_ ->]|[(k & Hk & Hf) _]];
    [|by rewrite (Hok k Hk) in Hf].
  cbv zeta.
  match goal with
  | |- context [ingest_files w ?p "raw_sales" ?m ?s' ?o] =>
      exists o; destruct (ingest_files w p "raw_sales" m s' o) as [sa outa]
  end.
  cbv beta iota. cbn [fst].
  match goal with
  | |- context [ingest_files w ?p "raw_inventory" ?m ?s' ?o] =>
      exists o; by destruct (ingest_files w p "raw_inventory" m s' o) as [sb outb]
  end.
Qed.

(** C8. When the reset block of [main] goes through (the sink is reached,
    takes the two drops and commits them), [main] sends the two drops
    once, before anything else, and all it sends afterwards are writes:
    first to raw_sales, then to raw_inventory.  A drop of a table that
    does not exist changes no table, and a second drop changes nothing
    more.  A committed write appends its rows to the rows the table
    holds.  So whatever an earlier invocation left in the sink, after a
    second invocation that reset the tables each target table holds
    exactly the rows the second invocation committed to it (or does not
    exist when it committed none).  When a step of the reset raises,
    [main] ends there: the exception is not caught, nothing is dropped or
    written, and the sink is as the earlier invocation left it. *)
Theorem tables_reset_once_per_invocation (w1 w2 : World) (s0 : Sink) :
  let s1 := (main w1 s0).1 in
  let s2 := (main w2 s1).1 in
  (∀ t (s : Sink), tables s !! t = None →
          tables (drop_table_if_exists t s) = tables s)
  ∧ (∀ t (s : Sink),
       tables (drop_table_if_exists t (drop_table_if_exists t s))
       = tables (drop_table_if_exists t s))
  ∧ (∀ t (df : DataFrame) (s : Sink),
       table_rows (append_rows t df s) t = table_rows s t ++ rows_of df)
  ∧ ((∀ k, k < 4 → reset_ok w2 k = true) →
     ∃ sales inventory,
       statements s2
       = statements s1
         ++ [DropTableIfExists "raw_sales"; DropTableIfExists "raw_inventory"]
         ++ sales ++ inventory
       ∧ Forall (is_write_to "raw_sales") sales
       ∧ Forall (is_write_to "raw_inventory") inventory
       ∧ tables s2 !! "raw_sales"
         = match committed "raw_sales" (sales ++ inventory) with
           | [] => None
           | ws => Some (ws ≫= rows_of)
           end
       ∧ tables s2 !! "raw_inventory"
         = match committed "raw_inventory" (sales ++ inventory) with
           | [] => None
           | ws => Some (ws ≫= rows_of)
           end)
  ∧ ((∃ k, k < 4 ∧ reset_ok w2 k = false) →
     main w2 s1 = (s1, [Starting; Uncaught OperationalError])).
Proof.
  intros s1 s2. split_and!.
  - intros t s H. simpl. by apply delete_id.
  - intros t s. simpl. apply map_eq. intros k.
    destruct (decide (t = k)) as [->|]; [by rewrite !lookup_delete_eq|].
    by rewrite !lookup_delete_ne.
  - intros t df s. unfold table_rows. simpl. by rewrite lookup_insert_eq.
  - intros Hok. subst s2. generalize s1. clear -Hok. intros s.
    destruct (main_sink w2 s Hok) as (out1 & out2 & ->).
    set (sd := drop_table_if_exists "raw_inventory" (drop_table_if_exists "raw_sales" s)).
    destruct (ingest_files_spec w2 (SALES_DIR w2 +:+ "/*.csv") "raw_sales"
                (Some SALES_SCHEMA_MAP) sd out1)
      as (sales & S1 & N1 & T1 & O1).
    set (sa := (ingest_files w2 _ "raw_sales" _ sd out1).1) in *.
    destruct (ingest_files_spec w2 (INVENTORY_DIR w2 +:+ "/*.csv") "raw_inventory"
                None sa out2)
      as (inventory & S2 & N2 & T2 & O2).
    set (sb := (ingest_files w2 _ "raw_inventory" _ sa out2).1) in *.
    simpl in *. exists sales, inventory.
    assert (tables sd !! "raw_sales" = None) as Hs.
    { subst sd. simpl. rewrite lookup_delete_ne by done. apply lookup_delete_eq. }
    assert (tables sd !! "raw_inventory" = None) as Hi.
    { subst sd. simpl. apply lookup_delete_eq. }
    rewrite !committed_app.
    rewrite (committed_other "raw_sales" "raw_inventory" inventory) by done.
    rewrite (committed_other "raw_inventory" "raw_sales" sales) by done.
    rewrite app_nil_r. simpl.
    split_and!; [|done|done| |].
    + rewrite S2, S1. subst sd. simpl. by rewrite <- !app_assoc.
    + rewrite O2 by done. rewrite T1. unfold table_rows. rewrite Hs.
      by destruct (committed "raw_sales" sales).
    + rewrite T2. unfold table_rows. rewrite O1 by done. rewrite lookup_delete_eq.
      by destruct (committed "raw_inventory" inventory).
  - intros Hbad. by apply main_raises.
Qed.

(** ** More about the normalizer *)

(** X3. The rename dictionary built for a frame holds exactly the columns
    of the frame that are keys of the schema map, each with the map's
    value: [rename] is never handed a column the frame lacks. *)
Theorem rename_dict_holds_present_keys
    (m : gmap string string) (current_cols : list string) (c v : string) :
  (build_rename_dict m current_cols !! c = Some v
   ↔ c ∈ current_cols ∧ m !! c = Some v)
  ∧ (is_Some (build_rename_dict m current_cols !! c) → c ∈ current_cols)
  ∧ (build_rename_dict m current_cols = ∅
     ↔ ∀ a, a ∈ current_cols → m !! a = None).
Proof.
  split_and!.
  - rewrite build_rename_dict_lookup. case_decide; naive_solver.
  - rewrite build_rename_dict_lookup. case_decide; [done|]. by intros [? ?].
  - split.
    + intros E a Ha. pose proof (build_rename_dict_lookup m current_cols a) as L.
      rewrite E, lookup_empty, decide_True in L by done. done.
    + intros Hn. apply map_eq. intros a.
      rewrite build_rename_dict_lookup, lookup_empty. case_decide; auto.
Qed.

Lemma normalize_columns_off_table (sm : option (gmap string string)) (df : DataFrame) :
  (∀ m c, sm = Some m → c ∈ columns df → m !! c = None) →
  normalize_columns sm df = Ok df.
Proof.
  intros Hoff. unfold normalize_columns. destruct sm as [m|]; [|done].
  destruct (dict_truthy m); [|done].
  assert (build_rename_dict m (columns df) = ∅) as ->.
  { apply map_eq. intros a. rewrite build_rename_dict_lookup, lookup_empty.
    case_decide; eauto. }
  done.
Qed.

(** X2. A frame none of whose columns is a key of the schema map goes
    through the renaming step unchanged: no rename is called and nothing
    can raise.  This covers a missing schema map and an empty one. *)
Theorem normalize_identity_off_table
    (sm : option (gmap string string)) (df : DataFrame) :
  (∀ m c, sm = Some m → c ∈ columns df → m !! c = None) →
  normalize_columns sm df = Ok df
  ∧ rename_plan sm (columns df) = ∅.
Proof.
  intros Hoff. split; [by apply normalize_columns_off_table|].
  destruct sm as [m|]; [|done]. simpl. apply map_eq. intros a.
  rewrite build_rename_dict_lookup, lookup_empty. case_decide; eauto.
Qed.

(** X4. When no value of the schema map is itself a key of it (no
    canonical name is also an alias), normalizing is idempotent: a frame
    that came out of the renaming step goes through it again unchanged. *)
Theorem normalize_idempotent
    (sm : option (gmap string string)) (df df' : DataFrame) :
  (∀ m, sm = Some m → map_Forall (λ _ v, m !! v = None) m) →
  normalize_columns sm df = Ok df' →
  normalize_columns sm df' = Ok df'.
Proof.
  intros Hm Hn. apply normalize_columns_off_table. intros m c -> Hc.
  rewrite (normalize_columns_names _ _ _ Hn) in Hc.
  apply list_elem_of_fmap in Hc as (a & -> & Ha).
  rewrite (rename_plan_target (Some m) _ a Ha).
  destruct (m !! a) as [v|] eqn:Hv; simpl; [|done].
  by apply (Hm m eq_refl a v).
Qed.

(** ** More about the loop *)

Lemma ingest_loop_app (w : World) (K total : nat) (t : string)
    (sm : option (gmap string string)) (pre post : list string) (i : nat)
    (st : LoopState) :
  ingest_loop w K total t sm i (pre ++ post) st
  = ingest_loop w K total t sm (i + length pre) post
      (ingest_loop w K total t sm i pre st).
Proof.
  revert i st. induction pre as [|p pre IH]; intros i st; simpl.
  - by rewrite Nat.add_0_r.
  - rewrite IH. f_equal. lia.
Qed.

Lemma iteration_same_data (w : World) (K total total' : nat) (t : string)
    (sm : option (gmap string string)) (i i' : nat) (p : string)
    (st st' : LoopState) :
  same_data st st' →
  (i =? total - 1) = (i' =? total' - 1) →
  same_data (iteration w K total t sm i p st) (iteration w K total' t sm i' p st').
Proof.
  intros [Hb Hs] Hlast.
  destruct (processed w sm p) as [df|e] eqn:Hp.
  2:{ rewrite !(iteration_skip _ _ _ _ _ _ _ _ _ Hp). by split. }
  assert (flush_due K total i (length (current_batch st ++ [df]))
          = flush_due K total' i' (length (current_batch st' ++ [df]))) as Hd.
  { unfold flush_due. by rewrite Hb, Hlast. }
  destruct (flush_due K total i (length (current_batch st ++ [df]))) eqn:Hd1;
    symmetry in Hd.
  - rewrite (iteration_flush _ _ _ _ _ _ _ _ _ Hp Hd1),
      (iteration_flush _ _ _ _ _ _ _ _ _ Hp Hd), <- Hb, <- Hs.
    destruct (concat_diagonal _); [|by split].
    destruct (to_sql_ok w _); by split.
  - rewrite (iteration_append _ _ _ _ _ _ _ _ _ Hp Hd1),
      (iteration_append _ _ _ _ _ _ _ _ _ Hp Hd). split; simpl; congruence.
Qed.

Lemma ingest_loop_same_data (w : World) (K : nat) (t : string)
    (sm : option (gmap string string)) (files : list string) (i i' : nat)
    (st st' : LoopState) :
  same_data st st' →
  same_data (ingest_loop w K (i + length files) t sm i files st)
            (ingest_loop w K (i' + length files) t sm i' files st').
Proof.
  revert i i' st st'. induction files as [|p files IH]; intros i i' st st' H;
    [done|]. cbn [ingest_loop length].
  replace (i + S (length files)) with (S i + length files) by lia.
  replace (i' + S (length files)) with (S i' + length files) by lia.
  apply IH. apply iteration_same_data; [done|].
  destruct files; simpl.
  - transitivity true; [|symmetry]; apply Nat.eqb_eq; lia.
  - transitivity false; [|symmetry]; apply Nat.eqb_neq; lia.
Qed.

(** X5. A file that cannot be turned into a record set (reading it or
    renaming its columns raises) and that is not the last of the
    enumeration leaves no trace in the data: the loop ends with the batch
    and the sink it would have ended with had the file not been in the
    enumeration.  (A file whose flush raises is another matter: its record
    set stays in the batch.) *)
Theorem skipped_file_is_as_absent
    (w : World) (K : nat) (t : string) (sm : option (gmap string string))
    (pre post : list string) (bad : string) (st : LoopState) :
  is_ok (processed w sm bad) = false →
  post ≠ [] →
  same_data
    (ingest_loop w K (length (pre ++ bad :: post)) t sm 0 (pre ++ bad :: post) st)
    (ingest_loop w K (length (pre ++ post)) t sm 0 (pre ++ post) st).
Proof.
  intros Hbad Hpost.
  destruct (processed w sm bad) as [|e] eqn:Hp; [done|]. clear Hbad.
  assert (∀ i i' st st',
            same_data st st' →
            same_data
              (ingest_loop w K (i + length (pre ++ bad :: post)) t sm i
                 (pre ++ bad :: post) st)
              (ingest_loop w K (i' + length (pre ++ post)) t sm i'
                 (pre ++ post) st')) as Hgen.
  { induction pre as [|a pre IH]; intros i i' st1 st2 H.
    - cbn [app ingest_loop]. rewrite (iteration_skip _ _ _ _ _ _ _ _ _ Hp).
      replace (i + length (bad :: post)) with (S i + length post) by (simpl; lia).
      apply ingest_loop_same_data. destruct H. by split.
    - cbn [app ingest_loop].
      replace (i + length (a :: pre ++ bad :: post))
        with (S i + length (pre ++ bad :: post)) by (simpl; lia).
      replace (i' + length (a :: pre ++ post))
        with (S i' + length (pre ++ post)) by (simpl; lia).
      apply IH. apply iteration_same_data; [done|].
      destruct post as [|q post]; [done|].
      transitivity false; [|symmetry]; apply Nat.eqb_neq;
        rewrite !length_app; simpl; lia. }
  apply (Hgen 0 0 st st). by split.
Qed.
(** ** A sink that takes every write, files that may fail *)

Section SinkUp.
Context (w : World) (K total : nat) (t : string) (sm : option (gmap string string)).
Hypothesis K_pos : 0 < K.
Hypothesis sink_up : ∀ n, to_sql_ok w n = true.

Lemma ingest_loop_sink_up (files : list string) (i : nat) (st : LoopState) :
  Forall text_frame (current_batch st) →
  length (current_batch st) < K →
  let st' := ingest_loop w K total t sm i files st in
  ∃ (batches : list (list DataFrame)) (ws : list DataFrame),
    current_batch st ++ frames_of w sm files = concat batches ++ current_batch st'
    ∧ Forall2 (λ b wdf, concat_diagonal b = Ok wdf) batches ws
    ∧ statements (sink st')
      = statements (sink st) ++ ((λ wdf, ToSql t wdf true) <$> ws)
    ∧ Forall text_frame (current_batch st')
    ∧ length (current_batch st') < K
    ∧ (i + length files < total → Forall (λ b, length b = K) batches).
Proof.
  revert i st. induction files as [|p files IH]; intros i st Hb Hlen;
    cbn [ingest_loop].
  { exists [], []. simpl. split_and!; rewrite ?app_nil_r; by try constructor. }
  rewrite frames_of_cons.
  destruct (processed w sm p) as [df|e] eqn:Hdf.
  2:{ rewrite (iteration_skip _ _ _ _ _ _ _ _ _ Hdf).
      set (st1 := {| current_batch := current_batch st |}).
      destruct (IH (S i) st1) as (bs & ws & B & C & Hst & T & L & Full); [done..|].
      exists bs, ws. split_and!; try done. intros ?. apply Full. simpl in *. lia. }
  assert (Forall text_frame (current_batch st ++ [df])) as Hb'.
  { apply Forall_app. split; [done|]. apply Forall_singleton. by eapply processed_text. }
  destruct (flush_due K total i (length (current_batch st ++ [df]))) eqn:Hd.
  - rewrite (iteration_flush _ _ _ _ _ _ _ _ _ Hdf Hd).
    destruct (concat_diagonal_succeeds (current_batch st ++ [df])) as [combined Hc];
      [by destruct (current_batch st) | done |].
    rewrite Hc, sink_up.
    set (st1 := {| current_batch := [] |}).
    destruct (IH (S i) st1) as (bs & ws & B & C & Hst & T & L & Full);
      [constructor | simpl; lia |].
    exists ((current_batch st ++ [df]) :: bs), (combined :: ws). split_and!.
    + simpl in *. by rewrite B, <- !app_assoc.
    + by constructor.
    + rewrite Hst. simpl. by rewrite <- app_assoc.
    + done.
    + done.
    + intros Hnl. constructor; [|apply Full; simpl in *; lia].
      unfold flush_due in Hd. apply orb_true_iff in Hd as [Hd|Hd].
      * apply Nat.leb_le in Hd. rewrite length_app in *. simpl in *. lia.
      * apply Nat.eqb_eq in Hd. simpl in *. lia.
  - rewrite (iteration_append _ _ _ _ _ _ _ _ _ Hdf Hd).
    set (st1 := {| current_batch := current_batch st ++ [df] |}).
    assert (length (current_batch st ++ [df]) < K) as Hlt.
    { unfold flush_due in Hd. apply orb_false_iff in Hd as [Hd1 _].
      by apply Nat.leb_gt in Hd1. }
    destruct (IH (S i) st1) as (bs & ws & B & C & Hst & T & L & Full); [done..|].
    exists bs, ws. split_and!; try done.
    + simpl in *. by rewrite <- B, <- app_assoc.
    + intros ?. apply Full. simpl in *. lia.
Qed.

(** X9. Against a sink that takes every write, the batch stays bounded:
    whatever files raise, after any number of files the batch holds fewer
    than [batch_size] record sets. *)
Theorem batch_stays_below_batch_size (pre post : list string) (s : Sink)
    (out : list output) :
  let st := ingest_loop w K total t sm 0 pre
              {| current_batch := []; sink := s; console := out |} in
  length (current_batch st) < K
  ∧ ingest_loop w K total t sm 0 (pre ++ post)
      {| current_batch := []; sink := s; console := out |}
    = ingest_loop w K total t sm (length pre) post st.
Proof.
  intros st. subst st. split.
  - set (st0 := {| current_batch := [] |}).
    destruct (ingest_loop_sink_up pre 0 st0) as (_ & _ & _ & _ & _ & _ & L & _);
      [constructor | simpl; lia | done].
  - by rewrite ingest_loop_app.
Qed.
End SinkUp.

Section LastFile.
Context (w : World) (K : nat) (t : string) (sm : option (gmap string string)).
Context (pre : list string) (last : string) (s : Sink) (out : list output).
Hypothesis K_pos : 0 < K.
Hypothesis sink_up : ∀ n, to_sql_ok w n = true.

Let total := length (pre ++ [last]).
Let st0 : LoopState := {| current_batch := []; sink := s; console := out |}.

(** X6. Against a sink that takes every write, when the last file of the
    enumeration turns into a record set the run ends with an empty batch:
    every record set of the run, the ones before and after any skipped
    file included, has been committed, in the order of the files. *)
Theorem nothing_pending_when_last_file_is_read :
  is_ok (processed w sm last) = true →
  let st' := ingest_loop w K total t sm 0 (pre ++ [last]) st0 in
  current_batch st' = []
  ∧ ∃ (batches : list (list DataFrame)) (ws : list DataFrame),
      frames_of w sm (pre ++ [last]) = concat batches
      ∧ Forall2 (λ b wdf, concat_diagonal b = Ok wdf) batches ws
      ∧ statements (sink st') = statements s ++ ((λ wdf, ToSql t wdf true) <$> ws).
Proof.
  intros Hok st'. subst st'.
  destruct (processed w sm last) as [df|] eqn:Hdf; [clear Hok | done].
  destruct (ingest_loop_sink_up w K total t sm K_pos sink_up (pre ++ [last]) 0 st0)
    as (bs & ws & B & C & Hst & _ & _ & _); [constructor | simpl; lia |].
  assert (current_batch (ingest_loop w K total t sm 0 (pre ++ [last]) st0) = [])
    as Hempty.
  { rewrite ingest_loop_app. cbn [ingest_loop].
    set (st1 := ingest_loop w K total t sm 0 pre st0).
    destruct (ingest_loop_sink_up w K total t sm K_pos sink_up pre 0 st0)
      as (_ & _ & _ & _ & _ & T & _ & _); [constructor | simpl; lia |].
    fold st1 in T.
    assert (flush_due K total (0 + length pre) (length (current_batch st1 ++ [df]))
            = true) as Hd.
    { unfold flush_due. apply orb_true_iff. right. apply Nat.eqb_eq.
      subst total. rewrite length_app. simpl. lia. }
    rewrite (iteration_flush _ _ _ _ _ _ _ _ _ Hdf Hd).
    destruct (concat_diagonal_succeeds (current_batch st1 ++ [df])) as [combined Hc].
    - by destruct (current_batch st1).
    - apply Forall_app. split; [done|]. apply Forall_singleton. by eapply processed_text.
    - by rewrite Hc, sink_up. }
  split; [done|]. exists bs, ws. rewrite Hempty, app_nil_r in B. by split_and!.
Qed.

(** X7. Against a sink that takes every write, when the last file of the
    enumeration raises, the record sets gathered since the last flush are
    never written: with [M] record sets from the files before it, the run
    commits the first [M - M mod batch_size] of them, in full batches, and
    ends with the other [M mod batch_size] still in the batch. *)
Theorem corrupt_last_file_loses_remainder :
  is_ok (processed w sm last) = false →
  let st' := ingest_loop w K total t sm 0 (pre ++ [last]) st0 in
  let frames := frames_of w sm pre in
  let M := length frames in
  current_batch st' = drop (M - M mod K) frames
  ∧ length (current_batch st') = M mod K
  ∧ ∃ (batches : list (list DataFrame)) (ws : list DataFrame),
      take (M - M mod K) frames = concat batches
      ∧ Forall (λ b, length b = K) batches
      ∧ Forall2 (λ b wdf, concat_diagonal b = Ok wdf) batches ws
      ∧ statements (sink st') = statements s ++ ((λ wdf, ToSql t wdf true) <$> ws).
Proof.
  intros Hbad st' frames M. subst st' frames M.
  destruct (processed w sm last) as [|e] eqn:Hp; [done|]. clear Hbad.
  rewrite ingest_loop_app. cbn [ingest_loop].
  rewrite (iteration_skip _ _ _ _ _ _ _ _ _ Hp). simpl.
  destruct (ingest_loop_sink_up w K total t sm K_pos sink_up pre 0 st0)
    as (bs & ws & B & C & Hst & _ & L & Full); [constructor | simpl; lia |].
  simpl in B, Hst.
  specialize (Full ltac:(subst total; rewrite length_app; simpl; lia)).
  set (batch := current_batch (ingest_loop w K total t sm 0 pre st0)) in *.
  assert (length (concat bs) = K * length bs) as Hcat.
  { clear -Full. induction Full as [|b bs Hb _ IH]; simpl; [lia|].
    rewrite length_app, IH, Hb. lia. }
  assert (length (frames_of w sm pre) = K * length bs + length batch) as Hlen.
  { by rewrite B, length_app, Hcat. }
  assert (length (frames_of w sm pre) `mod` K = length batch) as Hmod.
  { rewrite Hlen, Nat.add_comm, Nat.mul_comm, Nat.Div0.mod_add.
    by apply Nat.mod_small. }
  assert (length (frames_of w sm pre) - length (frames_of w sm pre) `mod` K
          = length (concat bs)) as Hcut.
  { rewrite Hmod, Hlen, Hcat. lia. }
  rewrite Hcut, Hmod. split_and!.
  - by rewrite B, drop_app_length.
  - done.
  - exists bs, ws. split_and!; [|done..]. by rewrite B, take_app_length.
Qed.
End LastFile.
(** ** The console against the sink *)

Lemma count_lines_app (kind : output → bool) (l1 l2 : list output) :
  count_lines kind (l1 ++ l2) = count_lines kind l1 + count_lines kind l2.
Proof. induction l1 as [|o l1 IH]; simpl; [done|]. rewrite IH. lia. Qed.

Lemma ingest_loop_console (w : World) (K total : nat) (t : string)
    (sm : option (gmap string string)) (files : list string) (i : nat)
    (st : LoopState) :
  Forall text_frame (current_batch st) →
  let st' := ingest_loop w K total t sm i files st in
  ∃ (lines : list output) (news : list statement),
    console st' = console st ++ lines
    ∧ statements (sink st') = statements (sink st) ++ news
    ∧ Forall text_frame (current_batch st')
    ∧ count_lines is_progress lines = length (committed t news)
    ∧ count_lines is_error lines + length (frames_of w sm files)
      + length (committed t news)
      = length files + length (attempted t news)
    ∧ length lines = count_lines is_progress lines + count_lines is_error lines.
Proof.
  revert i st. induction files as [|p files IH]; intros i st Hb; cbn [ingest_loop].
  { exists [], []. simpl. by rewrite !app_nil_r. }
  rewrite frames_of_cons.
  destruct (processed w sm p) as [df|e] eqn:Hdf.
  2:{ rewrite (iteration_skip _ _ _ _ _ _ _ _ _ Hdf).
      set (st1 := {| current_batch := current_batch st |}).
      destruct (IH (S i) st1) as (lines & news & Hc & Hst & T & P & E & L); [done|].
      exists (ErrorProcessing p e :: lines), news. simpl in *.
      split_and!; [by rewrite Hc, <- app_assoc | done | done | done | lia | lia]. }
  assert (Forall text_frame (current_batch st ++ [df])) as Hb'.
  { apply Forall_app. split; [done|]. apply Forall_singleton. by eapply processed_text. }
  destruct (flush_due K total i (length (current_batch st ++ [df]))) eqn:Hd.
  - rewrite (iteration_flush _ _ _ _ _ _ _ _ _ Hdf Hd).
    destruct (concat_diagonal_succeeds (current_batch st ++ [df])) as [combined Hc];
      [by destruct (current_batch st) | done |].
    rewrite Hc. destruct (to_sql_ok w _).
    + set (st1 := {| current_batch := [] |}).
      destruct (IH (S i) st1) as (lines & news & Hco & Hst & T & P & E & L);
        [constructor|].
      exists (Processed (i + 1) total :: lines), (ToSql t combined true :: news).
      simpl in *. rewrite decide_True by done. simpl.
      split_and!; [by rewrite Hco, <- app_assoc | by rewrite Hst, <- app_assoc
                  | done | lia | lia | lia].
    + set (st1 := {| current_batch := current_batch st ++ [df] |}).
      destruct (IH (S i) st1) as (lines & news & Hco & Hst & T & P & E & L); [done|].
      exists (ErrorProcessing p OperationalError :: lines),
        (ToSql t combined false :: news).
      simpl in *. rewrite decide_True by done. simpl.
      split_and!; [by rewrite Hco, <- app_assoc | by rewrite Hst, <- app_assoc
                  | done | lia | lia | lia].
  - rewrite (iteration_append _ _ _ _ _ _ _ _ _ Hdf Hd).
    set (st1 := {| current_batch := current_batch st ++ [df] |}).
    destruct (IH (S i) st1) as (lines & news & Hco & Hst & T & P & E & L); [done|].
    exists lines, news. simpl in *. split_and!; [done | done | done | done | lia | lia].
Qed.

(** X11. In every run the console tells what happened to the sink: the
    loop prints one progress line per committed write and nothing else but
    error lines, and one error line per file that raised and per write
    that did not go through. *)
Theorem console_accounts_for_sink
    (w : World) (K : nat) (file_pattern t : string)
    (sm : option (gmap string string)) (s : Sink) (out : list output) :
  let st' := ingest_run w K file_pattern t sm s out in
  let files := glob w file_pattern in
  ∃ (lines : list output) (news : list statement),
    console st' = out ++ [Found (length files) t] ++ lines
    ∧ statements (sink st') = statements s ++ news
    ∧ length lines = count_lines is_progress lines + count_lines is_error lines
    ∧ count_lines is_progress lines = length (committed t news)
    ∧ count_lines is_error lines
      = (length files - length (frames_of w sm files))
        + (length (attempted t news) - length (committed t news))
    ∧ length (frames_of w sm files) ≤ length files
    ∧ length (committed t news) ≤ length (attempted t news).
Proof.
  intros st' files. subst st' files. unfold ingest_run.
  set (files := glob w file_pattern).
  set (st0 := {| current_batch := [] |}).
  destruct (ingest_loop_console w K (length files) t sm files 0 st0)
    as (lines & news & Hc & Hst & _ & P & E & L); [constructor|].
  exists lines, news. simpl in *.
  assert (length (frames_of w sm files) ≤ length files) as H1.
  { clear. induction files as [|p files IH]; [done|].
    rewrite frames_of_cons. destruct (processed w sm p); simpl; lia. }
  assert (length (committed t news) ≤ length (attempted t news)) as H2.
  { clear. induction news as [|[?|t' df [|]] news IH]; simpl; [done..| |];
      by (case_decide; simpl; lia). }
  split_and!; [by rewrite Hc, <- app_assoc | done | done | done | lia | done | done].
Qed.

(** ** More about [main] *)

(** X8. [main] leaves every table but raw_sales and raw_inventory as it
    found it. *)
Theorem main_leaves_other_tables (w : World) (s : Sink) (t : string) :
  t ≠ "raw_sales" → t ≠ "raw_inventory" →
  tables (main w s).1 !! t = tables s !! t.
Proof.
  intros Hs Hi.
  destruct (reset_tables_cases w s) as [[Hok _]|[Hbad _]];
    [|by rewrite (main_raises w s Hbad)].
  destruct (main_sink w s Hok) as (out1 & out2 & ->).
  set (sd := drop_table_if_exists "raw_inventory" (drop_table_if_exists "raw_sales" s)).
  destruct (ingest_files_spec w (SALES_DIR w +:+ "/*.csv") "raw_sales"
              (Some SALES_SCHEMA_MAP) sd out1) as (_ & _ & _ & _ & O1).
  set (sa := (ingest_files w _ "raw_sales" _ sd out1).1) in *.
  destruct (ingest_files_spec w (INVENTORY_DIR w +:+ "/*.csv") "raw_inventory"
              None sa out2) as (_ & _ & _ & _ & O2).
  rewrite O2, O1 by done. subst sd. simpl. by rewrite !lookup_delete_ne.
Qed.

(** X1. When neither directory holds a file and the reset block goes
    through, [main] drops the two tables and creates none: it sends the
    two drops and nothing else, the two tables do not exist afterwards,
    and it reports success.  When a step of the reset block raises (the
    sink cannot be reached, or refuses a drop or the commit), [main]
    prints its first line only and ends with the exception uncaught,
    leaving the sink as it was. *)
Theorem main_on_empty_directories (w : World) (s : Sink) :
  glob w (SALES_DIR w +:+ "/*.csv") = [] →
  glob w (INVENTORY_DIR w +:+ "/*.csv") = [] →
  ((∀ k, k < 4 → reset_ok w k = true) →
   main w s
   = (drop_table_if_exists "raw_inventory" (drop_table_if_exists "raw_sales" s),
      [Starting; Cleared; Processing "SALES"; Found 0 "raw_sales";
       Finished "raw_sales"; Processing "INVENTORY"; Found 0 "raw_inventory";
       Finished "raw_inventory"; AllLoaded])
   ∧ tables (main w s).1 !! "raw_sales" = None
   ∧ tables (main w s).1 !! "raw_inventory" = None)
  ∧ ((∃ k, k < 4 ∧ reset_ok w k = false) →
     main w s = (s, [Starting; Uncaught OperationalError])).
Proof.
  intros Hs Hi. split; [|apply main_raises].
  intros Hok.
  assert (main w s
          = (drop_table_if_exists "raw_inventory"
               (drop_table_if_exists "raw_sales" s),
             [Starting; Cleared; Processing "SALES"; Found 0 "raw_sales";
              Finished "raw_sales"; Processing "INVENTORY"; Found 0 "raw_inventory";
              Finished "raw_inventory"; AllLoaded])) as E.
  { unfold main.
    destruct (reset_tables_cases w s) as [[_ ->]|[(k & Hk & Hf) _]];
      [|by rewrite (Hok k Hk) in Hf].
    unfold ingest_files, ingest_files_with, ingest_run. cbv zeta.
    rewrite Hs. cbn [ingest_loop length sink console fst snd].
    rewrite Hi. cbn [ingest_loop length sink console fst snd].
    done. }
  rewrite E. simpl. split_and!; [done | |].
  - rewrite lookup_delete_ne by done. apply lookup_delete_eq.
  - apply lookup_delete_eq.
Qed.

(** ** The generators' files in the pipeline *)

Lemma merge_schema_names (acc sch : Schema) :
  (merge_schema acc sch).*1
  = foldl (λ names c, if decide (c ∈ names) then names else names ++ [c])
      acc.*1 sch.*1.
Proof.
  unfold merge_schema. revert acc.
  induction sch as [|[c dt] sch IH]; intros acc; simpl; [done|].
  rewrite IH. by destruct (decide (c ∈ acc.*1)); [|rewrite fmap_app].
Qed.

Lemma schema_of_names (df : DataFrame) : (schema_of df).*1 = columns df.
Proof.
  unfold schema_of, columns. rewrite <- list_fmap_compose. by apply list_fmap_ext.
Qed.

(** X10. The rename table knows none of the columns the sales generator
    writes, the drifted date column included: whatever the break date and
    the day, a frame with the header of a generated sales file goes
    through the renaming step unchanged.  The same holds of an inventory
    file, which is ingested without a table. *)
Theorem generated_files_pass_unrenamed
    (break_date : option Z) (current_date : Z) (raw : DataFrame) :
  columns raw = sales_csv_keys (date_header break_date current_date)
  ∨ columns raw = inventory_csv_keys →
  normalize_columns (Some SALES_SCHEMA_MAP) raw = Ok raw
  ∧ normalize_columns None raw = Ok raw.
Proof.
  intros Hcols. split; [|done].
  apply normalize_columns_off_table. intros m c [= <-] Hc.
  destruct Hcols as [Hcols|Hcols]; rewrite Hcols in Hc.
  - unfold date_header in Hc.
    destruct break_date as [b|]; [destruct (bool_decide (b ≤ current_date)%Z)|];
      repeat (apply elem_of_cons in Hc as [->|Hc]; [reflexivity|]);
      by apply elem_of_nil in Hc.
  - repeat (apply elem_of_cons in Hc as [->|Hc]; [reflexivity|]).
    by apply elem_of_nil in Hc.
Qed.

Lemma union_schema_names_acc (acc : Schema) (dfs : list DataFrame) :
  (foldl (λ acc df, merge_schema acc (schema_of df)) acc dfs).*1
  = foldl (λ names df,
             foldl (λ names c, if decide (c ∈ names) then names else names ++ [c])
               names (columns df))
      acc.*1 dfs.
Proof.
  revert acc. induction dfs as [|df dfs IH]; intros acc; simpl; [done|].
  by rewrite IH, merge_schema_names, schema_of_names.
Qed.

Section Drift.

(** The headers of a sales file before and after the drift, and the
    columns of a wide frame that met the one, then the other. *)
Let before : list string := sales_csv_keys "sale_date".
Let after : list string := sales_csv_keys "date_of_sale".
Let merged (names : list string) (dfs : list DataFrame) : list string :=
  foldl (λ names df,
           foldl (λ names c, if decide (c ∈ names) then names else names ++ [c])
             names (columns df))
    names dfs.
Let generated (df : DataFrame) : Prop :=
  frame_ok df ∧ text_frame df ∧ (columns df = before ∨ columns df = after).

Lemma merged_settled (names : list string) (dfs : list DataFrame) :
  names = before ++ ["date_of_sale"] ∨ names = after ++ ["sale_date"] →
  Forall generated dfs → merged names dfs = names.
Proof.
  intros Hn Hg. induction Hg as [|df dfs (_ & _ & Hc) _ IH]; [done|].
  unfold merged in *. cbn [foldl].
  destruct Hn as [->| ->], Hc as [->| ->]; exact IH.
Qed.

Lemma merged_meets_other (dfs : list DataFrame) :
  Forall generated dfs →
  ((∃ b, b ∈ dfs ∧ columns b = after) →
   merged before dfs = before ++ ["date_of_sale"])
  ∧ ((∃ a, a ∈ dfs ∧ columns a = before) →
     merged after dfs = after ++ ["sale_date"]).
Proof.
  intros Hg. induction Hg as [|df dfs (Hok & Ht & Hc) Hg [IH1 IH2]].
  { split; intros (x & Hx & _); by apply elem_of_nil in Hx. }
  split.
  - intros (b & Hb & Cb). unfold merged in *. cbn [foldl].
    destruct Hc as [Hc|Hc]; rewrite Hc.
    + apply IH1. apply elem_of_cons in Hb as [->|Hb]; [|by exists b].
      rewrite Hc in Cb. done.
    + apply (merged_settled (before ++ ["date_of_sale"])); [by left | done].
  - intros (a & Ha & Ca). unfold merged in *. cbn [foldl].
    destruct Hc as [Hc|Hc]; rewrite Hc.
    + apply (merged_settled (after ++ ["sale_date"])); [by right | done].
    + apply IH2. apply elem_of_cons in Ha as [->|Ha]; [|by exists a].
      rewrite Hc in Ca. done.
Qed.

(** X12. The schema drift of the generator survives ingestion: when a
    batch of generated sales files, in whatever order [glob] lists them,
    holds a file written before a store's break date and one written
    after it, the wide frame has both date columns: the date column of
    the batch's first file in third place, the other one last.  Every row
    of a file written before the break is null under [date_of_sale] and
    every row of a file written after it is null under [sale_date]. *)
Theorem schema_drift_survives_ingestion (batch : list DataFrame) :
  Forall (λ df, frame_ok df ∧ text_frame df
                ∧ (columns df = sales_csv_keys "sale_date"
                   ∨ columns df = sales_csv_keys "date_of_sale")) batch →
  (∃ a, a ∈ batch ∧ columns a = sales_csv_keys "sale_date") →
  (∃ b, b ∈ batch ∧ columns b = sales_csv_keys "date_of_sale") →
  ∃ wide first rest,
    batch = first :: rest
    ∧ concat_diagonal batch = Ok wide
    ∧ columns wide
      = columns first
        ++ [if decide (columns first = sales_csv_keys "sale_date")
            then "date_of_sale" else "sale_date"]
    ∧ rows_of wide
      = batch ≫= (λ df, fmap (M:=list) (reconcile_row (columns wide)) (rows_of df))
    ∧ (∀ df r, df ∈ batch → r ∈ rows_of df →
         columns df = sales_csv_keys "sale_date" →
         row_get (reconcile_row (columns wide) r) "date_of_sale" = Some None)
    ∧ (∀ df r, df ∈ batch → r ∈ rows_of df →
         columns df = sales_csv_keys "date_of_sale" →
         row_get (reconcile_row (columns wide) r) "sale_date" = Some None).
Proof.
  intros Hg Ha Hb. fold before after in Hg, Ha, Hb |- *.
  change (Forall generated batch) in Hg.
  destruct batch as [|first rest].
  { destruct Ha as (a & Ha & _). by apply elem_of_nil in Ha. }
  destruct (concat_diagonal_text (first :: rest)) as (wide & Hc & C & _ & _ & R);
    [done | | |].
  { eapply Forall_impl; [exact Hg|]. by intros df (? & _). }
  { eapply Forall_impl; [exact Hg|]. by intros df (_ & ? & _). }
  pose proof Hg as Hg0. apply Forall_cons in Hg0 as [(_ & _ & Hf) Hrest].
  assert (columns wide
          = columns first
            ++ [if decide (columns first = before) then "date_of_sale" else "sale_date"])
    as Hcols.
  { rewrite C. unfold union_schema. rewrite union_schema_names_acc.
    cbn [foldl fmap list_fmap]. fold (merged
      (foldl (λ names c, if decide (c ∈ names) then names else names ++ [c])
         [] (columns first)) rest).
    destruct (merged_meets_other rest Hrest) as [M1 M2].
    destruct Hf as [Hf|Hf]; rewrite Hf.
    - rewrite decide_True by done. apply M1.
      destruct Hb as (b & Hb & Cb). apply elem_of_cons in Hb as [->|Hb]; [|by exists b].
      rewrite Hf in Cb. done.
    - rewrite decide_False by done. apply M2.
      destruct Ha as (a & Ha & Ca). apply elem_of_cons in Ha as [->|Ha]; [|by exists a].
      rewrite Hf in Ca. done. }
  assert ("date_of_sale" ∈ columns wide ∧ "sale_date" ∈ columns wide) as [Hin2 Hin1].
  { rewrite Hcols. destruct Hf as [Hf|Hf]; rewrite Hf.
    - rewrite decide_True by done. split; by_evaluation.
    - rewrite decide_False by done. split; by_evaluation. }
  exists wide, first, rest. split_and!; [done | done | done | done | |].
  - intros df r _ Hr Cd. rewrite row_get_reconcile by done.
    unfold rows_of in Hr. apply list_elem_of_fmap in Hr as (i & -> & _).
    rewrite row_get_row_at.
    assert (get_column df "date_of_sale" = None) as ->; [|done].
    apply get_column_None. rewrite Cd. by_evaluation.
  - intros df r _ Hr Cd. rewrite row_get_reconcile by done.
    unfold rows_of in Hr. apply list_elem_of_fmap in Hr as (i & -> & _).
    rewrite row_get_row_at.
    assert (get_column df "sale_date" = None) as ->; [|done].
    apply get_column_None. rewrite Cd. by_evaluation.
Qed.
End Drift.
(** ** A sink that takes no write *)

Lemma ingest_loop_sink_down (w : World) (K total : nat) (t : string)
    (sm : option (gmap string string)) (files : list string) (i : nat)
    (st : LoopState) :
  (∀ n, to_sql_ok w n = false) →
  let st' := ingest_loop w K total t sm i files st in
  current_batch st' = current_batch st ++ frames_of w sm files
  ∧ tables (sink st') = tables (sink st)
  ∧ ∃ news, statements (sink st') = statements (sink st) ++ news
            ∧ committed t news = [].
Proof.
  intros Hdown. revert i st. induction files as [|p files IH]; intros i st;
    cbn [ingest_loop].
  { simpl. rewrite app_nil_r. split_and!; [done..|]. exists []. by rewrite app_nil_r. }
  rewrite frames_of_cons.
  destruct (IH (S i) (iteration w K total t sm i p st)) as (B & T & news & Hst & C).
  destruct (processed w sm p) as [df|e] eqn:Hp.
  2:{ rewrite (iteration_skip _ _ _ _ _ _ _ _ _ Hp) in *. simpl in *.
      split_and!; [done..|]. by exists news. }
  destruct (flush_due K total i (length (current_batch st ++ [df]))) eqn:Hd.
  2:{ rewrite (iteration_append _ _ _ _ _ _ _ _ _ Hp Hd) in *. simpl in *.
      rewrite <- app_assoc in B. split_and!; [done..|]. by exists news. }
  rewrite (iteration_flush _ _ _ _ _ _ _ _ _ Hp Hd) in *.
  destruct (concat_diagonal (current_batch st ++ [df])) as [combined|e].
  2:{ simpl in *. rewrite <- app_assoc in B. split_and!; [done..|]. by exists news. }
  rewrite Hdown in *. simpl in *. rewrite <- app_assoc in B.
  split_and!; [done..|]. exists (ToSql t combined false :: news).
  split; [by rewrite Hst, <- app_assoc | done].
Qed.

(** X13. Against a sink that takes no write the batch is never cleared:
    the run changes no table, commits nothing, and ends with every record
    set of the run in the batch, which is then as long as the number of
    files that were read, whatever the batch size. *)
Theorem batch_grows_without_bound_when_sink_is_down
    (w : World) (K : nat) (file_pattern t : string)
    (sm : option (gmap string string)) (s : Sink) (out : list output) :
  (∀ n, to_sql_ok w n = false) →
  let st' := ingest_run w K file_pattern t sm s out in
  current_batch st' = frames_of w sm (glob w file_pattern)
  ∧ tables (sink st') = tables s
  ∧ ∃ news, statements (sink st') = statements s ++ news
            ∧ Forall (is_write_to t) news
            ∧ committed t news = [].
Proof.
  intros Hdown st'. subst st'. unfold ingest_run.
  set (files := glob w file_pattern).
  set (st0 := {| current_batch := [] |}).
  destruct (ingest_loop_sink_down w K (length files) t sm files 0 st0 Hdown)
    as (B & T & news & Hst & C).
  destruct (ingest_loop_invariant w K (length files) t sm files 0 st0)
    as (_ & _ & news' & _ & _ & Hst' & N & _).
  split_and!; [done | done |]. exists news. split_and!; [done | | done].
  rewrite Hst in Hst'. by apply app_inv_head in Hst' as ->.
Qed.

End Properties.

(** * The properties on the worked runs *)

Lemma sales_frame_ok (store : string) : frame_ok (sales_frame store).
Proof. split; [by_evaluation | repeat constructor]. Qed.

Lemma drifted_frame_ok : frame_ok drifted_frame.
Proof. split; [by_evaluation | repeat constructor]. Qed.

Lemma colliding_frame_ok : frame_ok colliding_frame.
Proof. split; [by_evaluation | repeat constructor]. Qed.

Lemma three_files_frames_ok (q : string) (raw : DataFrame) :
  read_csv three_files q = Ok raw → frame_ok raw.
Proof.
  simpl. case_decide; intros ?; simplify_eq;
    [apply drifted_frame_ok | apply sales_frame_ok].
Qed.

(** Three files and batches of two: two writes, the second of one frame. *)
Lemma flush_at_batch_size_or_last_file_witness :
  ∃ (batches : list (list DataFrame)) (ws : list DataFrame),
    statements
      (ingest_files_with three_files 2 "raw_sales/*.csv" "raw_sales"
         (Some SALES_SCHEMA_MAP) empty_sink []).1
    = statements empty_sink ++ ((λ wdf, ToSql "raw_sales" wdf true) <$> ws)
    ∧ Forall2 (λ b wdf, concat_diagonal b = Ok wdf) batches ws
    ∧ concat batches
      = frames_of three_files (Some SALES_SCHEMA_MAP)
          (glob three_files "raw_sales/*.csv")
    ∧ length (concat batches) = 3
    ∧ length ws = (3 + 2 - 1) / 2
    ∧ (∀ j b, batches !! j = Some b →
         0 < length b ≤ 2 ∧ (S j < length batches → length b = 2)).
Proof.
  apply (flush_at_batch_size_or_last_file three_files 2
           "raw_sales/*.csv" "raw_sales" (Some SALES_SCHEMA_MAP) empty_sink []).
  - lia.
  - reflexivity.
  - repeat constructor.
Defined.

(** [qty] is a key of the sales table and becomes [quantity]. *)
Lemma normalize_maps_each_column_witness :
  "qty" ∈ columns (sales_frame "S1")
  ∧ rename_target
      (rename_plan (Some SALES_SCHEMA_MAP) (columns (sales_frame "S1"))) "qty"
    = "quantity".
Proof.
  assert ("qty" ∈ columns (sales_frame "S1")) as Hin by by_evaluation.
  split; [exact Hin|].
  apply (normalize_maps_each_column (Some SALES_SCHEMA_MAP) (sales_frame "S1") "qty" Hin)
    with (m := SALES_SCHEMA_MAP); reflexivity.
Defined.

(** Two frames with different columns. *)
Lemma reconciled_wide_record_set_witness :
  ∃ wide,
    concat_diagonal
      [select_all_cast_utf8 (sales_frame "S1");
       select_all_cast_utf8 drifted_frame] = Ok wide
    ∧ height wide = 3.
Proof.
  destruct (reconciled_wide_record_set
              [select_all_cast_utf8 (sales_frame "S1");
               select_all_cast_utf8 drifted_frame])
    as (wide & Hc & _ & _ & _ & Hh & _).
  - done.
  - repeat constructor; try by_evaluation.
  - repeat constructor.
  - exists wide. split; [exact Hc | exact Hh].
Defined.

(** C7, as stated, fails: the plan sends the two distinct columns [qty]
    and [quant] of a well-formed frame to [quantity], and applying it
    raises instead of returning a frame with fewer columns; the file ends
    up in no batch and no table. *)
Lemma rename_collision_counterexample :
  let plan := rename_plan (Some SALES_SCHEMA_MAP) (columns colliding_frame) in
  frame_ok colliding_frame
  ∧ "qty" ≠ "quant"
  ∧ rename_target plan "qty" = rename_target plan "quant"
  ∧ normalize_columns (Some SALES_SCHEMA_MAP) colliding_frame = Err DuplicateError
  ∧ ingest_files colliding_file "raw_sales/*.csv" "raw_sales"
      (Some SALES_SCHEMA_MAP) empty_sink []
    = (empty_sink,
       [Found 1 "raw_sales"; ErrorProcessing "drift.csv" DuplicateError;
        Finished "raw_sales"]).
Proof.
  split_and!; [apply colliding_frame_ok | done | | |]; by vm_compute.
Qed.

Lemma rename_collision_skips_file_witness :
  normalize_columns (Some SALES_SCHEMA_MAP) colliding_frame = Err DuplicateError
  ∧ iteration colliding_file batch_size 1 "raw_sales"
      (Some SALES_SCHEMA_MAP) 0 "drift.csv"
      {| current_batch := []; sink := empty_sink; console := [] |}
    = {| current_batch := []; sink := empty_sink;
         console := [ErrorProcessing "drift.csv" DuplicateError] |}.
Proof.
  apply (rename_collision_skips_file colliding_file batch_size 1 "raw_sales"
           (Some SALES_SCHEMA_MAP) 0 "drift.csv"
           {| current_batch := []; sink := empty_sink; console := [] |}
           colliding_frame).
  - reflexivity.
  - split; [by_evaluation | repeat constructor].
  - by_evaluation.
Defined.

Lemma failed_write_keeps_batch_witness :
  let st1 := iteration first_write_fails 1 2 "raw_inventory" None 0
               "s1.csv" start_state in
  let st' := ingest_loop first_write_fails 1 2 "raw_inventory" None 1
               ["s2.csv"] st1 in
  current_batch st1 = [s1_frame]
  ∧ ∃ news,
      statements (sink st') = statements (sink st1) ++ news
      ∧ match attempted "raw_inventory" news with
        | [] => current_batch st'
                = [s1_frame] ++ frames_of first_write_fails None ["s2.csv"]
        | next :: _ =>
            ∃ more, more ≠ []
                    ∧ more `prefix_of` frames_of first_write_fails None ["s2.csv"]
                    ∧ concat_diagonal ([s1_frame] ++ more) = Ok next
        end.
Proof.
  apply (failed_write_keeps_batch first_write_fails 1 2 "raw_inventory"
           None 0 "s1.csv" start_state s1_frame s1_frame);
    reflexivity.
Defined.

Lemma failed_write_is_logged_and_run_continues_witness :
  let st1 := iteration first_write_fails 1 2 "raw_inventory" None 0
               "s1.csv" start_state in
  let st' := ingest_loop first_write_fails 1 2 "raw_inventory" None 0
               ["s1.csv"; "s2.csv"] start_state in
  st1 = {| current_batch := [s1_frame];
           sink := reject_rows "raw_inventory" s1_frame empty_sink;
           console := [ErrorProcessing "s1.csv" OperationalError] |}
  ∧ tables (sink st1) = tables empty_sink
  ∧ st' = ingest_loop first_write_fails 1 2 "raw_inventory" None 1
            ["s2.csv"] st1
  ∧ (∃ more, table_rows (sink st') "raw_inventory"
             = table_rows empty_sink "raw_inventory" ++ more)
  ∧ (∀ t', t' ≠ "raw_inventory" →
           tables (sink st') !! t' = tables empty_sink !! t').
Proof.
  apply (failed_write_is_logged_and_run_continues first_write_fails 1 2
           "raw_inventory" None 0 "s1.csv" start_state s1_frame s1_frame);
    reflexivity.
Defined.

Lemma flush_preserves_row_order_witness :
  ∃ (batches : list (list DataFrame)) (ws : list DataFrame),
    frames_of three_files (Some SALES_SCHEMA_MAP)
      (glob three_files "raw_sales/*.csv")
    = concat batches
      ++ current_batch (ingest_run three_files 2 "raw_sales/*.csv"
                          "raw_sales" (Some SALES_SCHEMA_MAP) empty_sink [])
    ∧ table_rows
        (sink (ingest_run three_files 2 "raw_sales/*.csv"
                 "raw_sales" (Some SALES_SCHEMA_MAP) empty_sink []))
        "raw_sales"
      = table_rows empty_sink "raw_sales" ++ (ws ≫= rows_of).
Proof.
  destruct (flush_preserves_row_order three_files 2 "raw_sales/*.csv"
              "raw_sales" (Some SALES_SCHEMA_MAP) empty_sink []
              three_files_frames_ok)
    as (batches & ws & news & B & _ & _ & T & _).
  exists batches, ws. split; [exact B | exact T].
Defined.

(** C2, as stated, fails: the write of the first full batch raises while
    file 499 is being processed; the run is not aborted: the error is
    printed like the error of a skipped file, file 500 is read and
    appended, and the next write carries all 501 record sets; the function
    returns as after any run. *)
Lemma failed_write_counterexample :
  let run := ingest_files many_files "inventory/*.csv" "raw_inventory"
               None empty_sink [] in
  run.2 = [ Found 501 "raw_inventory";
            ErrorProcessing "d499.csv" OperationalError;
            Processed 501 501;
            Finished "raw_inventory" ]
  ∧ (λ s, match s with
          | ToSql t df ok => (t, height df, ok)
          | DropTableIfExists t => (t, 0, false)
          end) <$> statements run.1
    = [ ("raw_inventory", 500, false); ("raw_inventory", 501, true) ]
  ∧ length (table_rows run.1 "raw_inventory") = 501.
Proof. by vm_compute. Qed.

(** C5 at a run whose last file is corrupt: the valid file is read and put
    in the batch, the corrupt one is logged, and the loop ends with the
    batch still holding the valid file's record set: nothing was sent to
    the sink. *)
Lemma corrupt_last_file_loses_batch :
  ingest_run corrupt_last_file batch_size "raw_sales/*.csv" "raw_sales"
    (Some SALES_SCHEMA_MAP) empty_sink []
  = {| current_batch :=
         [select_all_cast_utf8
            [ ("transaction_id", Utf8 [Some "T1"; Some "T2"]);
              ("store_id", Utf8 [Some "s1.csv"; Some "s1.csv"]);
              ("quantity", Int64 [Some 3%Z; None]);
              ("unit_price", Boolean [Some true; Some false]) ]];
       sink := empty_sink;
       console := [Found 2 "raw_sales"; ErrorProcessing "s2.csv" ReadError] |}
  ∧ ingest_files corrupt_last_file "raw_sales/*.csv" "raw_sales"
      (Some SALES_SCHEMA_MAP) empty_sink []
    = (empty_sink,
       [Found 2 "raw_sales"; ErrorProcessing "s2.csv" ReadError;
        Finished "raw_sales"]).
Proof. by vm_compute. Qed.

(** The header of a sales file as the generator writes it has no drifted
    quantity or price column. *)
Lemma normalize_identity_off_table_witness :
  normalize_columns (Some SALES_SCHEMA_MAP) drifted_frame = Ok drifted_frame
  ∧ rename_plan (Some SALES_SCHEMA_MAP) (columns drifted_frame) = ∅.
Proof.
  apply (normalize_identity_off_table (Some SALES_SCHEMA_MAP) drifted_frame).
  intros m c [= <-] Hc.
  repeat (apply elem_of_cons in Hc as [->|Hc]; [reflexivity|]).
  by apply elem_of_nil in Hc.
Defined.

Lemma normalize_idempotent_witness :
  normalize_columns (Some SALES_SCHEMA_MAP) (sales_frame "S1") = Ok canonical_frame
  ∧ normalize_columns (Some SALES_SCHEMA_MAP) canonical_frame = Ok canonical_frame.
Proof.
  split; [reflexivity|].
  apply (normalize_idempotent (Some SALES_SCHEMA_MAP) (sales_frame "S1")).
  - intros m [= <-]. by_evaluation.
  - reflexivity.
Defined.

(** * More properties on the worked runs *)

Lemma skipped_file_is_as_absent_witness :
  same_data
    (ingest_loop corrupt_middle_file batch_size 3 "raw_sales"
       (Some SALES_SCHEMA_MAP) 0 ["s1.csv"; "bad.csv"; "s3.csv"] start_state)
    (ingest_loop corrupt_middle_file batch_size 2 "raw_sales"
       (Some SALES_SCHEMA_MAP) 0 ["s1.csv"; "s3.csv"] start_state).
Proof.
  apply (skipped_file_is_as_absent corrupt_middle_file batch_size "raw_sales"
           (Some SALES_SCHEMA_MAP) ["s1.csv"] ["s3.csv"] "bad.csv" start_state).
  - reflexivity.
  - done.
Defined.

Lemma batch_stays_below_batch_size_witness :
  length (current_batch
            (ingest_loop corrupt_middle_file 2 3 "raw_sales" (Some SALES_SCHEMA_MAP)
               0 ["s1.csv"; "bad.csv"] start_state)) < 2.
Proof.
  apply (batch_stays_below_batch_size corrupt_middle_file 2 3 "raw_sales"
           (Some SALES_SCHEMA_MAP) ltac:(lia) (λ n, eq_refl)
           ["s1.csv"; "bad.csv"] ["s3.csv"] empty_sink []).
Defined.

Lemma nothing_pending_when_last_file_is_read_witness :
  current_batch
    (ingest_loop corrupt_middle_file batch_size 3 "raw_sales" (Some SALES_SCHEMA_MAP)
       0 ["s1.csv"; "bad.csv"; "s3.csv"] start_state) = [].
Proof.
  apply (nothing_pending_when_last_file_is_read corrupt_middle_file batch_size
           "raw_sales" (Some SALES_SCHEMA_MAP) ["s1.csv"; "bad.csv"] "s3.csv"
           empty_sink [] ltac:(unfold batch_size; lia) (λ n, eq_refl)).
  reflexivity.
Defined.

Lemma corrupt_last_file_loses_remainder_witness :
  length (current_batch
            (ingest_loop corrupt_middle_file batch_size 3 "raw_sales"
               (Some SALES_SCHEMA_MAP) 0 ["s1.csv"; "s3.csv"; "bad.csv"] start_state))
  = 2 `mod` batch_size.
Proof.
  apply (corrupt_last_file_loses_remainder corrupt_middle_file batch_size
           "raw_sales" (Some SALES_SCHEMA_MAP) ["s1.csv"; "s3.csv"] "bad.csv"
           empty_sink [] ltac:(unfold batch_size; lia) (λ n, eq_refl)).
  reflexivity.
Defined.

Lemma main_leaves_other_tables_witness :
  tables (main three_files used_sink).1 !! "dim_store"
  = Some (rows_of after_drift).
Proof.
  rewrite (main_leaves_other_tables three_files used_sink "dim_store");
    [reflexivity | done | done].
Defined.

(** Empty directories: with a sink that can be reset the two tables are
    gone afterwards; with one that cannot, [main] ends after its first
    line and the sink is as it was. *)
Lemma main_on_empty_directories_witness :
  (tables (main empty_directories used_sink).1 !! "raw_sales" = None
   ∧ tables (main empty_directories used_sink).1 !! "raw_inventory" = None)
  ∧ main unreachable_empty used_sink
    = (used_sink, [Starting; Uncaught OperationalError]).
Proof.
  split.
  - apply (main_on_empty_directories empty_directories used_sink eq_refl eq_refl).
    intros k _. reflexivity.
  - apply (main_on_empty_directories unreachable_empty used_sink eq_refl eq_refl).
    exists 1. split; [lia | reflexivity].
Defined.

(** Two invocations in a row over the same three files: the second one
    resets the tables, and raw_sales then holds the rows of its own two
    batches only; had the second one not reached the sink, the tables
    would be as the first one left them. *)
Lemma tables_reset_once_per_invocation_witness :
  (∃ sales inventory,
     statements (main three_files (main three_files used_sink).1).1
     = statements (main three_files used_sink).1
       ++ [DropTableIfExists "raw_sales"; DropTableIfExists "raw_inventory"]
       ++ sales ++ inventory
     ∧ tables (main three_files (main three_files used_sink).1).1 !! "raw_sales"
       = match committed "raw_sales" (sales ++ inventory) with
         | [] => None
         | ws => Some (ws ≫= rows_of)
         end)
  ∧ main unreachable_sink (main three_files used_sink).1
    = ((main three_files used_sink).1, [Starting; Uncaught OperationalError]).
Proof.
  destruct (tables_reset_once_per_invocation three_files three_files used_sink)
    as (_ & _ & _ & Hok & _).
  destruct (tables_reset_once_per_invocation three_files unreachable_sink used_sink)
    as (_ & _ & _ & _ & Hbad).
  split.
  - destruct Hok as (sales & inventory & Hst & _ & _ & Hs & _);
      [intros k _; reflexivity|].
    exists sales, inventory. split; [exact Hst | exact Hs].
  - apply Hbad. exists 0. split; [lia | reflexivity].
Defined.

(** The cast of a frame with integers, booleans, text and nulls. *)
Lemma cast_total_idempotent_witness :
  rows_of (select_all_cast_utf8 (sales_frame "S1"))
  = [ [ ("tx_id", Some (CStr "T1")); ("store_id", Some (CStr "S1"));
        ("qty", Some (CStr "3")); ("price", Some (CStr "true")) ];
      [ ("tx_id", Some (CStr "T2")); ("store_id", Some (CStr "S1"));
        ("qty", None); ("price", Some (CStr "false")) ] ].
Proof.
  destruct (cast_total_idempotent (Utf8 [] : @Series Empty_set))
    as (_ & _ & _ & _ & _ & _ & _ & Hframe & _).
  destruct (Hframe (sales_frame "S1")) as (_ & _ & _ & _ & _ & -> & _).
  reflexivity.
Defined.

Lemma generated_files_pass_unrenamed_witness :
  normalize_columns (Some SALES_SCHEMA_MAP) after_drift = Ok after_drift
  ∧ normalize_columns None after_drift = Ok after_drift.
Proof.
  apply (generated_files_pass_unrenamed (Some 365%Z) 400%Z after_drift).
  left. reflexivity.
Defined.

(** The later file first: [date_of_sale] comes third and [sale_date] last. *)
Lemma schema_drift_survives_ingestion_witness :
  ∃ wide,
    concat_diagonal [after_drift; before_drift] = Ok wide
    ∧ columns wide
      = ["transaction_id"; "store_id"; "date_of_sale"; "product_id"; "product_name";
         "quantity"; "unit_price"; "total_amount"; "sale_date"].
Proof.
  destruct (schema_drift_survives_ingestion [after_drift; before_drift])
    as (wide & first & rest & Hb & Hc & Hcols & _).
  - repeat apply Forall_cons_2; [| |apply Forall_nil_2].
    + split_and!; [split; [by_evaluation | repeat constructor] | repeat constructor
                  | right; reflexivity].
    + split_and!; [split; [by_evaluation | repeat constructor] | repeat constructor
                  | left; reflexivity].
  - exists before_drift. split; [set_solver | reflexivity].
  - exists after_drift. split; [set_solver | reflexivity].
  - exists wide. split; [exact Hc|]. injection Hb as <- <-. exact Hcols.
Defined.
Lemma batch_grows_without_bound_when_sink_is_down_witness :
  length (current_batch
            (ingest_run sink_down 2 "raw_sales/*.csv" "raw_sales"
               (Some SALES_SCHEMA_MAP) empty_sink [])) = 3
  ∧ tables (sink (ingest_run sink_down 2 "raw_sales/*.csv" "raw_sales"
                    (Some SALES_SCHEMA_MAP) empty_sink [])) = ∅.
Proof.
  destruct (batch_grows_without_bound_when_sink_is_down sink_down 2
              "raw_sales/*.csv" "raw_sales" (Some SALES_SCHEMA_MAP) empty_sink []
              (λ n, eq_refl)) as (B & T & _).
  split; [by rewrite B | exact T].
Defined.
